(** * Snipe-IT asset scanner: the audit service, embedded and verified

    A shallow embedding of the Express service of the repository (its
    single server source file): the audit table and the three handlers
    that write it (submit, resolve, delete), the input validation of the
    handlers that talk to Snipe-IT, and the asset snapshot pipeline
    (paged fetch, date extraction, staleness classification, cache).

    Conventions.  Every handler is a function from the request, the
    answers of the outside world (Snipe-IT, the clock, the SQLite driver)
    and the current state, to a reply, the next state and the list of
    remote calls it issued, in order. *)

From stdpp Require Import base option list strings pretty gmap fin_maps.
From Stdlib Require Import Ascii ZArith Lia.

Local Open Scope string_scope.
Local Open Scope list_scope.
Local Open Scope Z_scope.

(** ** JavaScript values, as far as JSON bodies produce them *)

Module JS.

(** Numbers are the integers: identifiers, counts and epoch
    milliseconds.  A string is the sequence of its UTF-16 code units,
    each below 256 (the Latin-1 range), one character of [string] per
    code unit.  An object is the list of its own properties in
    [Object.entries] order. *)
#[warnings="-register-all"]
Inductive value : Type :=
| Undefined
| Null
| Bool (b : bool)
| Num (n : Z)
| Str (s : string)
| Obj (props : list (string * value))
| Arr (items : list value).

(** [!!v] *)
Definition truthy (v : value) : bool :=
  match v with
  | Undefined | Null => false
  | Bool b => b
  | Num n => negb (Z.eqb n 0)
  | Str s => negb (String.eqb s "")
  | Obj _ | Arr _ => true
  end.

(** [a === b] for two values read from different places of a parsed
    body: primitives compare by type and value, two objects (or
    arrays) are two references and never equal. *)
Definition strict_eq (a b : value) : bool :=
  match a, b with
  | Undefined, Undefined => true
  | Null, Null => true
  | Bool x, Bool y => Bool.eqb x y
  | Num x, Num y => Z.eqb x y
  | Str x, Str y => String.eqb x y
  | _, _ => false
  end.

(** [a || b] *)
Definition or (a b : value) : value := if truthy a then a else b.

(** [typeof v === 'string'] and [typeof v === 'object'] *)
Definition is_string (v : value) : bool :=
  match v with Str _ => true | _ => false end.

Definition is_object (v : value) : bool :=
  match v with Null | Obj _ | Arr _ => true | _ => false end.

Fixpoint assoc (k : string) (ps : list (string * value)) : value :=
  match ps with
  | [] => Undefined
  | (k', v) :: ps' => if String.eqb k k' then v else assoc k ps'
  end.

(** [v?.k]: a property read that yields [undefined] on anything that
    does not own the property. *)
Definition prop (v : value) (k : string) : value :=
  match v with
  | Obj ps => assoc k ps
  | _ => Undefined
  end.

(** What the SQLite driver stores for a bound parameter: [undefined]
    is bound as NULL. *)
Definition bound (v : value) : value :=
  match v with Undefined => Null | _ => v end.

Definition nullish (v : value) : bool :=
  match v with Undefined | Null => true | _ => false end.

End JS.

(** ** Requests, replies and the outside world *)

(** A request header: absent, or its text. *)
Definition header : Type := option string.

(** [!h] is false *)
Definition present (h : header) : bool :=
  match h with
  | Some s => negb (String.eqb s "")
  | None => false
  end.

(** The outcome of an awaited call that may throw. *)
Inductive outcome (A : Type) : Type :=
| Done (a : A)
| Thrown (http_status : option Z) (message : string).
Arguments Done {A} a.
Arguments Thrown {A} http_status message.

(** The note sent with an audit: the operator's notes when truthy, else
    the template with its three holes. *)
Inductive audit_note : Type :=
| NoteGiven (notes : JS.value)
| NoteDefault (status : string) (expected_location_name actual_location_name : JS.value).

(** Requests sent to Snipe-IT. *)
Inductive call : Type :=
| GetByTag (term : string)
| SearchHardware (search : string) (limit : Z)
| PostAudit (asset_tag location_id : JS.value) (note : audit_note)
| PatchHardware (asset_id rtd_location_id : JS.value)
| GetHardwarePage (limit offset : Z).

(** The [details] of an error reply: none, what Snipe-IT said, or the
    message of an exception of the engine (a TypeError). *)
Inductive details : Type :=
| NoDetails
| Remote (message : string)
| Engine.

Inductive response (A : Type) : Type :=
| Json (body : A)
| Error (code : Z) (error : string) (details : details).
Arguments Json {A} body.
Arguments Error {A} code error details.

(** [error.response?.status || 500] *)
Definition status_or_500 (s : option Z) : Z :=
  match s with
  | Some c => if Z.eqb c 0 then 500 else c
  | None => 500
  end.

(** ** The audits table *)

Module Row.
Record t : Type := mk {
  id : Z;
  asset_id : JS.value;
  asset_tag : JS.value;
  asset_name : JS.value;
  sap_asset_number : JS.value;
  expected_location_id : JS.value;
  expected_location_name : JS.value;
  actual_location_id : JS.value;
  actual_location_name : JS.value;
  status : string;
  notes : JS.value;
  user_name : JS.value;
  snipeit_audit_posted : Z;
  created_at : string;
  resolved_at : JS.value;
  resolved_by : JS.value
}.
End Row.

(** The table is keyed by its INTEGER PRIMARY KEY; [seq] is the
    AUTOINCREMENT high-water mark (the largest id ever handed out). *)
Record db : Type := mkdb {
  audits : gmap Z Row.t;
  seq : Z
}.

Definition empty_db : db := {| audits := ∅; seq := 0 |}.

(** Every stored id was handed out by the sequence, and a row sits under
    its own id. *)
Definition db_wf (d : db) : Prop :=
  0 ≤ seq d ∧ ∀ k r, audits d !! k = Some r → Row.id r = k ∧ 1 ≤ k ≤ seq d.

(** The NOT NULL columns of the schema that an insert supplies. *)
Definition not_null_ok (r : Row.t) : bool :=
  negb (JS.nullish (Row.asset_id r)) &&
  negb (JS.nullish (Row.asset_tag r)) &&
  negb (JS.nullish (Row.actual_location_id r)) &&
  negb (JS.nullish (Row.actual_location_name r)).

(** [INSERT INTO audits (...) VALUES (...)]: [fault] is the driver
    refusing the statement (a value it cannot bind, an I/O error); the
    row is given without its id, which the sequence supplies. *)
Definition db_insert (fault : bool) (mkrow : Z → Row.t) (d : db) : option (db * Z) :=
  let k := seq d + 1 in
  if fault then None
  else if not_null_ok (mkrow k) then
    Some ({| audits := <[k := mkrow k]> (audits d); seq := k |}, k)
  else None.

(** [SELECT * FROM audits WHERE id = ?] *)
Definition db_get (k : Z) (d : db) : option Row.t := audits d !! k.

(** [UPDATE audits SET status = 'resolved', resolved_at = ?, resolved_by = ? WHERE id = ?],
    for the texts the handler binds: the time stamp, and the name of
    the administrator or 'Admin'.  (A [resolved_by] sent as a number
    would be kept by its TEXT column as the text of that number.) *)
Definition mark_resolved (at_ by_ : JS.value) (r : Row.t) : Row.t :=
  Row.mk (Row.id r) (Row.asset_id r) (Row.asset_tag r) (Row.asset_name r)
         (Row.sap_asset_number r) (Row.expected_location_id r)
         (Row.expected_location_name r) (Row.actual_location_id r)
         (Row.actual_location_name r) "resolved" (Row.notes r) (Row.user_name r)
         (Row.snipeit_audit_posted r) (Row.created_at r)
         (JS.bound at_) (JS.bound by_).

Definition db_resolve (at_ by_ : JS.value) (k : Z) (d : db) : db :=
  {| audits := alter (mark_resolved at_ by_) k (audits d); seq := seq d |}.

(** [DELETE FROM audits WHERE id = ?] *)
Definition db_delete (k : Z) (d : db) : db :=
  {| audits := delete k (audits d); seq := seq d |}.

(** What a handler leaves behind. *)
Record result (A : Type) : Type := mkresult {
  reply : response A;
  store : db;
  calls : list call
}.
Arguments mkresult {A} reply store calls.
Arguments reply {A} r.
Arguments store {A} r.
Arguments calls {A} r.

(** ** Reconciliation workflow: submit, resolve, delete *)

Module Body.
(** The body of [POST /api/audit]. *)
Record audit : Type := mk_audit {
  asset_id : JS.value;
  asset_tag : JS.value;
  asset_name : JS.value;
  sap_asset_number : JS.value;
  expected_location_id : JS.value;
  expected_location_name : JS.value;
  actual_location_id : JS.value;
  actual_location_name : JS.value;
  notes : JS.value;
  user_name : JS.value
}.

(** [audit_ids] of the body of [POST /api/audits/resolve]: falsy, some
    truthy value that is no array, or an array of row ids. *)
Inductive audit_ids : Type :=
| IdsFalsy
| IdsNotArray
| IdsArray (ids : list Z).
End Body.

Module AuditReply.
Record t : Type := mk {
  success : bool;
  id : Z;
  status : string;
  snipeit_audit_posted : bool
}.
End AuditReply.

Module ResolveReply.
Record t : Type := mk {
  success : bool;
  resolved : nat;
  failed : nat;
  results : list Z;
  errors : list (Z * string)
}.
End ResolveReply.

Module Ack.
Record t : Type := mk { success : bool }.
End Ack.

(** What the world answers during one [POST /api/audit].  The last two
    fields are SQLite's column affinity, applied when a value is stored:
    [numeric_text s] is the number an INTEGER column keeps for the text
    [s] when [s] reads as a numeric literal ([None] when it does not,
    and the text is kept); [number_text n] is the text a TEXT column
    keeps for the number [n].  Numbers being the integers, a text that
    reads as a number with a fractional part is, like such a number,
    not among the values considered. *)
Record submit_env : Type := mk_submit_env {
  post_audit : outcome unit;
  insert_fault : bool;
  current_timestamp : string;
  numeric_text : string → option Z;
  number_text : Z → string
}.

(** What the world answers while one id of a batch is processed. *)
Record step_env : Type := mk_step_env {
  select_fault : option string;
  patch : outcome unit;
  now : string;
  update_fault : option string
}.

(** The two arrays the resolve loop fills, the table and the calls sent. *)
Record progress : Type := mk_progress {
  table : db;
  results : list Z;
  errors : list (Z * string);
  sent : list call
}.

(** [expected_location_id === actual_location_id ? 'match' : 'mismatch'] *)
Definition audit_status (expected_location_id actual_location_id : JS.value) : string :=
  if JS.strict_eq expected_location_id actual_location_id then "match" else "mismatch".

Definition audit_post (b : Body.audit) (status : string) : call :=
  PostAudit (Body.asset_tag b) (Body.actual_location_id b)
    (if JS.truthy (Body.notes b) then NoteGiven (Body.notes b)
     else NoteDefault status (Body.expected_location_name b) (Body.actual_location_name b)).

(** What a column declared INTEGER keeps of a bound value: a text that
    reads as a number is kept as that number. *)
Definition integer_column (w : submit_env) (v : JS.value) : JS.value :=
  match v with
  | JS.Str s => match numeric_text w s with Some n => JS.Num n | None => JS.Str s end
  | _ => JS.bound v
  end.

(** What a column declared TEXT keeps of a bound value: a number is
    kept as its text. *)
Definition text_column (w : submit_env) (v : JS.value) : JS.value :=
  match v with
  | JS.Num n => JS.Str (number_text w n)
  | _ => JS.bound v
  end.

(** The values of the INSERT, in the order of its columns, as the
    columns of the schema keep them; [created_at] takes its default. *)
Definition new_row (w : submit_env) (b : Body.audit) (status : string)
    (snipeitAuditPosted : Z) (k : Z) : Row.t :=
  Row.mk k
    (integer_column w (Body.asset_id b)) (text_column w (Body.asset_tag b))
    (text_column w (Body.asset_name b))
    (text_column w (JS.or (Body.sap_asset_number b) JS.Null))
    (integer_column w (Body.expected_location_id b))
    (text_column w (Body.expected_location_name b))
    (integer_column w (Body.actual_location_id b))
    (text_column w (Body.actual_location_name b))
    status (text_column w (Body.notes b)) (text_column w (Body.user_name b))
    snipeitAuditPosted (current_timestamp w) JS.Null JS.Null.

(** [POST /api/audit] *)
Definition submit_audit (apiToken : header) (b : Body.audit) (w : submit_env) (d : db)
    : result AuditReply.t :=
  if negb (present apiToken) then mkresult (Error 401 "API token required" NoDetails) d []
  else
    let status := audit_status (Body.expected_location_id b) (Body.actual_location_id b) in
    let snipeitAuditPosted :=
      match post_audit w with Done _ => 1 | Thrown _ _ => 0 end in
    match db_insert (insert_fault w)
            (new_row w b status snipeitAuditPosted) d with
    | Some (d', k) =>
        mkresult (Json (AuditReply.mk true k status (Z.eqb snipeitAuditPosted 1)))
                 d' [audit_post b status]
    | None =>
        mkresult (Error 500 "Failed to save audit" NoDetails) d [audit_post b status]
    end.

Definition push_error (p : progress) (auditId : Z) (message : string) : progress :=
  mk_progress (table p) (results p) (errors p ++ [(auditId, message)]) (sent p).

Definition push_call (p : progress) (c : call) : progress :=
  mk_progress (table p) (results p) (errors p) (sent p ++ [c]).

(** One turn of the [for (const auditId of audit_ids)] loop, with its
    [try]/[catch]. *)
Definition resolve_one (resolved_by : JS.value) (w : step_env) (auditId : Z)
    (p : progress) : progress :=
  match select_fault w with
  | Some message => push_error p auditId message
  | None =>
    match db_get auditId (table p) with
    | None => push_error p auditId "Audit not found"
    | Some audit =>
      if negb (String.eqb (Row.status audit) "mismatch")
      then push_error p auditId "Audit is not a mismatch"
      else if JS.truthy (Row.resolved_at audit)
      then push_error p auditId "Already resolved"
      else
        let p1 := push_call p (PatchHardware (Row.asset_id audit)
                                             (Row.actual_location_id audit)) in
        match patch w with
        | Thrown _ message => push_error p1 auditId message
        | Done _ =>
          match update_fault w with
          | Some message => push_error p1 auditId message
          | None =>
            mk_progress
              (db_resolve (JS.Str (now w)) (JS.or resolved_by (JS.Str "Admin"))
                 auditId (table p1))
              (results p1 ++ [auditId]) (errors p1) (sent p1)
          end
        end
    end
  end.

(** The loop; [w i] is what the world answers at the [i]-th element. *)
Fixpoint resolve_loop (resolved_by : JS.value) (w : nat → step_env) (i : nat)
    (ids : list Z) (p : progress) : progress :=
  match ids with
  | [] => p
  | auditId :: rest =>
      resolve_loop resolved_by w (S i) rest (resolve_one resolved_by (w i) auditId p)
  end.

(** ** Strings and property reads that may throw *)

(** [c.toLowerCase()] of one code unit below 256: the letters A to Z,
    and the Latin-1 capitals U+00C0 to U+00DE without the
    multiplication sign U+00D7, move up by 32; nothing else changes. *)
Definition lower_unit (c : ascii) : ascii :=
  let n := nat_of_ascii c in
  if (65 <=? n)%nat && (n <=? 90)%nat then ascii_of_nat (n + 32)
  else if (192 <=? n)%nat && (n <=? 222)%nat && negb (n =? 215)%nat
  then ascii_of_nat (n + 32)
  else c.

Fixpoint toLowerCase (s : string) : string :=
  match s with
  | EmptyString => EmptyString
  | String c s' => String (lower_unit c) (toLowerCase s')
  end.

(** [s.includes(t)] *)
Definition includes (s t : string) : bool :=
  match String.index 0 t s with Some _ => true | None => false end.

(** The white space and line terminators of the language among the code
    units below 256: tab, line feed, vertical tab, form feed, carriage
    return, space and the no-break space U+00A0. *)
Definition white_space (c : ascii) : bool :=
  let n := nat_of_ascii c in
  ((9 <=? n)%nat && (n <=? 13)%nat) || (n =? 32)%nat || (n =? 160)%nat.

Fixpoint trimStart (s : string) : string :=
  match s with
  | EmptyString => EmptyString
  | String c s' => if white_space c then trimStart s' else s
  end.

(** [s.trim()] *)
Definition trim (s : string) : string :=
  String.rev (trimStart (String.rev (trimStart s))).

(** [v.k]: throws (here [None]) on [null] and [undefined]. *)
Definition member (v : JS.value) (k : string) : option JS.value :=
  if JS.nullish v then None else Some (JS.prop v k).

(** [v.toLowerCase()] for a truthy [v]: a TypeError unless a string. *)
Definition lower (v : JS.value) : option string :=
  match v with JS.Str s => Some (toLowerCase s) | _ => None end.

(** [Object.entries(v)] of a truthy value. *)
Definition entries (v : JS.value) : list (string * JS.value) :=
  match v with
  | JS.Obj ps => ps
  | JS.Arr items => imap (λ i x, (pretty i, x)) items
  | JS.Str s => imap (λ i c, (pretty i, JS.Str (String c EmptyString))) (String.list_ascii_of_string s)
  | _ => []
  end.

(** [fieldName.toLowerCase().includes('sap') ||
     (fieldData && fieldData.field && fieldData.field.toLowerCase().includes('sap'))] *)
Definition sap_named (fieldName : string) (fieldData : JS.value) : option bool :=
  if includes (toLowerCase fieldName) "sap" then Some true
  else if JS.truthy fieldData && JS.truthy (JS.prop fieldData "field")
  then s ← lower (JS.prop fieldData "field"); Some (includes s "sap")
  else Some false.

(** [cf['SAP Asset Number / ID'] || cf['SAP Asset Number']] *)
Definition sap_field (custom_fields : JS.value) : JS.value :=
  JS.or (JS.prop custom_fields "SAP Asset Number / ID")
        (JS.prop custom_fields "SAP Asset Number").

(** ** Identifier search *)

(** [v && v.value && v.value.toLowerCase() === term.toLowerCase()] *)
Definition value_is (v : JS.value) (term : string) : option bool :=
  if JS.truthy v && JS.truthy (JS.prop v "value")
  then s ← lower (JS.prop v "value"); Some (String.eqb s (toLowerCase term))
  else Some false.

(** [assets.find(a => a.asset_tag && a.asset_tag.toLowerCase() === term.toLowerCase())] *)
Fixpoint find_tag (term : string) (assets : list JS.value) : option (option JS.value) :=
  match assets with
  | [] => Some None
  | a :: rest =>
      tag ← member a "asset_tag";
      hit ← (if JS.truthy tag
             then s ← lower tag; Some (String.eqb s (toLowerCase term))
             else Some false);
      if (hit : bool) then Some (Some a) else find_tag term rest
  end.

(** The inner loop over the custom fields of one asset. *)
Fixpoint sap_scan (term : string) (fields : list (string * JS.value)) : option bool :=
  match fields with
  | [] => Some false
  | (fieldName, fieldData) :: rest =>
      named ← sap_named fieldName fieldData;
      hit ← (if (named : bool) then value_is fieldData term else Some false);
      if (hit : bool) then Some true else sap_scan term rest
  end.

(** The outer loop: the first asset one of whose SAP fields is the term. *)
Fixpoint find_sap (term : string) (assets : list JS.value) : option (option JS.value) :=
  match assets with
  | [] => Some None
  | asset :: rest =>
      cf ← member asset "custom_fields";
      hit ← (if JS.truthy cf
             then exact ← value_is (sap_field cf) term;
                  if (exact : bool) then Some true else sap_scan term (entries cf)
             else Some false);
      if (hit : bool) then Some (Some asset) else find_sap term rest
  end.

(** [searchResponse.data.rows || []], then the two scans. *)
Definition search_rows (term : string) (data : JS.value) : option (option JS.value) :=
  rows ← member data "rows";
  assets ← (if JS.truthy rows
            then match rows with JS.Arr items => Some items | _ => None end
            else Some []);
  found ← find_tag term assets;
  match found with
  | Some a => Some (Some a)
  | None => find_sap term assets
  end.

(** Snipe-IT's answers during one search: to the lookup by tag and to
    the text search (the [data] of each response). *)
Record search_env : Type := mk_search_env {
  by_tag : outcome JS.value;
  by_search : outcome JS.value
}.

(** [!query || query.trim() === ''] *)
Definition query_missing (query : option string) : bool :=
  match query with
  | None => true
  | Some q => String.eqb q "" || String.eqb (trim q) ""
  end.

(** [GET /api/assets/search] *)
Definition search_assets (apiToken : header) (query : option string) (w : search_env)
    : response JS.value * list call :=
  if negb (present apiToken) then (Error 401 "API token required" NoDetails, [])
  else if query_missing query then (Error 400 "Search query required" NoDetails, [])
  else
    let searchTerm := trim (default "" query) in
    let first := GetByTag searchTerm in
    let second := SearchHardware searchTerm 50 in
    let tagged :=
      match by_tag w with
      | Done data =>
          if JS.truthy data && JS.truthy (JS.prop data "id")
          then Some data else None
      | Thrown _ _ => None
      end in
    match tagged with
    | Some data => (Json data, [first])
    | None =>
      match by_search w with
      | Thrown st message =>
          (Error (status_or_500 st) "Failed to search asset" (Remote message),
           [first; second])
      | Done data =>
        match search_rows searchTerm data with
        | None => (Error 500 "Failed to search asset" Engine, [first; second])
        | Some (Some asset) => (Json asset, [first; second])
        | Some None =>
            (Error 404 "Asset not found. Please check the asset tag or SAP number."
               NoDetails, [first; second])
        end
      end
    end.

(** ** Asset snapshot: paged fetch, classification, cache *)

Module Asset.
(** One entry of [processedAssets]. *)
Record t : Type := mk {
  id : JS.value;
  asset_tag : JS.value;
  name : JS.value;
  serial : JS.value;
  model : JS.value;
  category : JS.value;
  location : JS.value;
  location_id : JS.value;
  assigned_to : JS.value;
  status : JS.value;
  sap_asset_number : JS.value;
  last_audit_date : JS.value;
  next_audit_date : JS.value;
  never_audited : bool;
  not_audited_this_year : bool;
  audit_overdue : bool
}.
End Asset.

Module Snapshot.
Record t : Type := mk {
  total : nat;
  never_audited : list Asset.t;
  not_audited_this_year : list Asset.t;
  audit_overdue : list Asset.t;
  all_assets : list Asset.t
}.
End Snapshot.

Module SnapshotReply.
(** [{ ...snapshot, cached, cache_age }] *)
Record t : Type := mk {
  snapshot : Snapshot.t;
  cached : bool;
  cache_age : Z
}.
End SnapshotReply.

(** The [data] of one page response: [rows] is [None] when falsy,
    [total] is [None] when it is no number ([undefined]). *)
Record page : Type := mk_page {
  rows : option (list JS.value);
  total : option Z
}.

(** What the world answers during one [GET /api/snipeit/assets]:
    - [date_now]: [Date.now()] at the start of the handler;
    - [hardware_page offset]: Snipe-IT's answer to the request of the
      page at [offset];
    - [date_time v]: the time value of [new Date(v)], [None] when it is
      NaN (an invalid date);
    - [currentYearStart]: the time value of January 1 of the current
      year;
    - [date_clock i]: the time value of the [new Date()] evaluated for
      the [i]-th asset. *)
Record snapshot_env : Type := mk_snapshot_env {
  date_now : Z;
  hardware_page : Z → outcome page;
  date_time : JS.value → option Z;
  currentYearStart : Z;
  date_clock : nat → Z
}.

Definition limit : Z := 500.

(** [allAssets.length >= response.data.total] *)
Definition total_reached (n : nat) (total : option Z) : bool :=
  match total with
  | Some t => t <=? Z.of_nat n
  | None => false
  end.

(** The [while (hasMore)] loop, with fuel: [None] when the fuel runs
    out before [hasMore] becomes false; otherwise the accumulated rows,
    or the exception of the failed request, with the requests sent. *)
Fixpoint fetch_pages (fuel : nat) (remote : Z → outcome page)
    (allAssets : list JS.value) (offset : Z)
    : option (outcome (list JS.value) * list call) :=
  match fuel with
  | O => None
  | S fuel' =>
    match remote offset with
    | Thrown st message => Some (Thrown st message, [GetHardwarePage limit offset])
    | Done data =>
      let assets := default [] (rows data) in
      let allAssets' := allAssets ++ assets in
      if (Z.of_nat (length assets) <? limit) || total_reached (length allAssets') (total data)
      then Some (Done allAssets', [GetHardwarePage limit offset])
      else
        match fetch_pages fuel' remote allAssets' (offset + limit) with
        | Some (r, sent) => Some (r, GetHardwarePage limit offset :: sent)
        | None => None
        end
    end
  end.

Definition extractDate (dateField : JS.value) : JS.value :=
  if negb (JS.truthy dateField) then JS.Null
  else if JS.is_string dateField then dateField
  else if JS.is_object dateField && JS.truthy (JS.prop dateField "datetime")
  then JS.prop dateField "datetime"
  else if JS.is_object dateField && JS.truthy (JS.prop dateField "formatted")
  then JS.prop dateField "formatted"
  else JS.Null.

(** The time value of the parsed date, [None] for [null]. *)
Definition parseDate (date_time : JS.value → option Z) (dateField : JS.value) : option Z :=
  let dateStr := extractDate dateField in
  if negb (JS.truthy dateStr) then None else date_time dateStr.

(** The loop that looks for a SAP field by name or label; [None] is a
    TypeError. *)
Fixpoint sap_first (fields : list (string * JS.value)) : option JS.value :=
  match fields with
  | [] => Some JS.Null
  | (fieldName, fieldData) :: rest =>
      named ← sap_named fieldName fieldData;
      if (named : bool)
      then v ← member fieldData "value"; Some (JS.or v JS.Null)
      else sap_first rest
  end.

Definition sapAssetNumber (custom_fields : JS.value) : option JS.value :=
  if JS.truthy custom_fields && (0 <? length (entries custom_fields))%nat
  then
    let sapField := sap_field custom_fields in
    if JS.truthy sapField
    then Some (JS.or (JS.prop sapField "value") JS.Null)
    else sap_first (entries custom_fields)
  else Some JS.Null.

(** [x?.k || null] *)
Definition name_or_null (x : JS.value) (k : string) : JS.value :=
  JS.or (JS.prop x k) JS.Null.

(** The callback of [allAssets.map]; [None] is a TypeError. *)
Definition process_asset (w : snapshot_env) (i : nat) (asset : JS.value) : option Asset.t :=
  last ← member asset "last_audit_date";
  let next := JS.prop asset "next_audit_date" in
  let lastAuditDate := parseDate (date_time w) last in
  let nextAuditDate := parseDate (date_time w) next in
  sap ← sapAssetNumber (JS.prop asset "custom_fields");
  Some (Asset.mk
    (JS.prop asset "id") (JS.prop asset "asset_tag") (JS.prop asset "name")
    (JS.prop asset "serial")
    (name_or_null (JS.prop asset "model") "name")
    (name_or_null (JS.prop asset "category") "name")
    (name_or_null (JS.prop asset "location") "name")
    (name_or_null (JS.prop asset "location") "id")
    (name_or_null (JS.prop asset "assigned_to") "name")
    (name_or_null (JS.prop asset "status_label") "name")
    sap
    (extractDate last) (extractDate next)
    (negb (JS.truthy last))
    (match lastAuditDate with Some t => t <? currentYearStart w | None => true end)
    (match nextAuditDate with Some t => t <? date_clock w i | None => false end)).

(** [allAssets.map(...)], from index [i] on. *)
Fixpoint process_assets (w : snapshot_env) (i : nat) (allAssets : list JS.value)
    : option (list Asset.t) :=
  match allAssets with
  | [] => Some []
  | asset :: rest =>
      a ← process_asset w i asset;
      tl ← process_assets w (S i) rest;
      Some (a :: tl)
  end.

(** The three filters and the result object. *)
Definition classify (w : snapshot_env) (allAssets : list JS.value) : option Snapshot.t :=
  processedAssets ← process_assets w 0 allAssets;
  Some (Snapshot.mk
    (length allAssets)
    (filter (λ a, Asset.never_audited a = true) processedAssets)
    (filter (λ a, negb (Asset.never_audited a) && Asset.not_audited_this_year a = true)
            processedAssets)
    (filter (λ a, Asset.audit_overdue a = true) processedAssets)
    processedAssets).

(** The cache slot. *)
Record assetCache : Type := mk_cache {
  data : option Snapshot.t;
  timestamp : option Z
}.

Definition ttl : Z := 10 * 60 * 1000.

Definition startup_cache : assetCache := mk_cache None None.

(** [assetCache.data && assetCache.timestamp && (now - assetCache.timestamp) < assetCache.ttl] *)
Definition cache_fresh (c : assetCache) (now : Z) : option (Snapshot.t * Z) :=
  match data c, timestamp c with
  | Some snapshot, Some t =>
      if negb (Z.eqb t 0) && (now - t <? ttl) then Some (snapshot, t) else None
  | _, _ => None
  end.

(** [Math.round(ms / 1000)]: the nearest integer, halves upwards. *)
Definition round_seconds (ms : Z) : Z := (ms + 500) / 1000.

(** The loop starts with both arrays empty. *)
Definition start (d : db) : progress := mk_progress d [] [] [].

Section Service.

(** [process.env.ADMIN_PASSWORD || 'admin123'] *)
Variable ADMIN_PASSWORD : string.

(** [adminPassword !== ADMIN_PASSWORD] *)
Definition wrong_password (adminPassword : header) : bool :=
  negb (bool_decide (adminPassword = Some ADMIN_PASSWORD)).

(** [POST /api/audits/resolve] *)
Definition resolve_audits (adminPassword apiToken : header) (audit_ids : Body.audit_ids)
    (resolved_by : JS.value) (w : nat → step_env) (d : db) : result ResolveReply.t :=
  if wrong_password adminPassword
  then mkresult (Error 401 "Admin password required" NoDetails) d []
  else if negb (present apiToken)
  then mkresult (Error 401 "Snipe-IT API token required" NoDetails) d []
  else
    match audit_ids with
    | Body.IdsFalsy | Body.IdsNotArray | Body.IdsArray [] =>
        mkresult (Error 400 "audit_ids array is required" NoDetails) d []
    | Body.IdsArray ids =>
        let p := resolve_loop resolved_by w 0 ids (start d) in
        mkresult
          (Json (ResolveReply.mk (bool_decide (length (errors p) = 0%nat))
                   (length (results p)) (length (errors p)) (results p) (errors p)))
          (table p) (sent p)
    end.

(** [DELETE /api/audits/:id].  The route parameter is text; SQLite
    compares it with the integer key under the column's affinity: [id]
    is [Some k] when the text denotes the integer [k], and [None] when it
    denotes none and so matches no row. *)
Definition delete_audit (adminPassword : header) (id : option Z) (fault : bool) (d : db)
    : result Ack.t :=
  if wrong_password adminPassword
  then mkresult (Error 401 "Admin password required" NoDetails) d []
  else if fault
  then mkresult (Error 500 "Failed to delete audit" NoDetails) d []
  else
    mkresult (Json (Ack.mk true))
      (match id with Some k => db_delete k d | None => d end) [].

(** [PATCH /api/assets/:id/location]; [w] is Snipe-IT's answer to the
    patch. *)
Definition patch_location (adminPassword apiToken : header) (location_id : JS.value)
    (id : string) (w : outcome JS.value) : response (Ack.t * JS.value) * list call :=
  if wrong_password adminPassword
  then (Error 401 "Admin password required" NoDetails, [])
  else if negb (present apiToken)
  then (Error 401 "Snipe-IT API token required" NoDetails, [])
  else if negb (JS.truthy location_id)
  then (Error 400 "location_id is required" NoDetails, [])
  else
    let request := PatchHardware (JS.Str id) location_id in
    match w with
    | Done data => (Json (Ack.mk true, data), [request])
    | Thrown st message =>
        (Error (status_or_500 st) "Failed to update asset location" (Remote message),
         [request])
    end.

(** [GET /api/snipeit/assets]; [refresh] is the query parameter.  The
    outer [None] is the fuel of the paging loop running out. *)
Definition get_assets (adminPassword apiToken : header) (refresh : option string)
    (fuel : nat) (w : snapshot_env) (c : assetCache)
    : option (response SnapshotReply.t * assetCache * list call) :=
  let forceRefresh := bool_decide (refresh = Some "true") in
  if wrong_password adminPassword
  then Some (Error 401 "Admin password required" NoDetails, c, [])
  else if negb (present apiToken)
  then Some (Error 401 "Snipe-IT API token required" NoDetails, c, [])
  else
    let now := date_now w in
    match (if forceRefresh then None else cache_fresh c now) with
    | Some (snapshot, t) =>
        Some (Json (SnapshotReply.mk snapshot true (round_seconds (now - t))), c, [])
    | None =>
      match fetch_pages fuel (hardware_page w) [] 0 with
      | None => None
      | Some (Thrown st message, sent) =>
          Some (Error (status_or_500 st) "Failed to fetch assets from Snipe-IT"
                  (Remote message), c, sent)
      | Some (Done allAssets, sent) =>
        match classify w allAssets with
        | None =>
            Some (Error 500 "Failed to fetch assets from Snipe-IT" Engine, c, sent)
        | Some result =>
            Some (Json (SnapshotReply.mk result false 0),
                  mk_cache (Some result) (Some now), sent)
        end
      end
    end.

End Service.

(** ** Histories of the audits table *)

(** The requests that write the table. *)
Inductive op : Type :=
| Submit (apiToken : header) (b : Body.audit) (w : submit_env)
| Resolve (adminPassword apiToken : header) (audit_ids : Body.audit_ids)
    (resolved_by : JS.value) (w : nat → step_env)
| Delete (adminPassword : header) (id : option Z) (fault : bool).

Definition apply_op (ADMIN_PASSWORD : string) (o : op) (d : db) : db :=
  match o with
  | Submit apiToken b w => store (submit_audit apiToken b w d)
  | Resolve adminPassword apiToken audit_ids resolved_by w =>
      store (resolve_audits ADMIN_PASSWORD adminPassword apiToken audit_ids resolved_by w d)
  | Delete adminPassword id fault =>
      store (delete_audit ADMIN_PASSWORD adminPassword id fault d)
  end.

Definition run (ADMIN_PASSWORD : string) (ops : list op) (d : db) : db :=
  fold_left (λ d o, apply_op ADMIN_PASSWORD o d) ops d.

(** ** Routes that relay one request to Snipe-IT *)

(** The requests of these routes. *)
Inductive lookup : Type :=
| GetLocations
| GetHardware (id : string)
| GetUserMe.

(** [rows.filter(loc => !loc.parent_id)]; [None] is a TypeError. *)
Fixpoint top_level (rows : list JS.value) : option (list JS.value) :=
  match rows with
  | [] => Some []
  | loc :: rest =>
      parent ← member loc "parent_id";
      tl ← top_level rest;
      Some (if JS.truthy parent then tl else loc :: tl)
  end.

(** [GET /api/locations]; [w] is the [data] of Snipe-IT's answer. *)
Definition get_locations (apiToken : header) (w : outcome JS.value)
    : response (list JS.value) * list lookup :=
  if negb (present apiToken) then (Error 401 "API token required" NoDetails, [])
  else
    match w with
    | Thrown st message =>
        (Error (status_or_500 st) "Failed to fetch locations" (Remote message),
         [GetLocations])
    | Done data =>
        match (rows ← member data "rows";
               match rows with JS.Arr items => top_level items | _ => None end) with
        | Some locations => (Json locations, [GetLocations])
        | None => (Error 500 "Failed to fetch locations" Engine, [GetLocations])
        end
    end.

(** [GET /api/assets/:id] *)
Definition get_asset (apiToken : header) (id : string) (w : outcome JS.value)
    : response JS.value * list lookup :=
  if negb (present apiToken) then (Error 401 "API token required" NoDetails, [])
  else
    match w with
    | Done data => (Json data, [GetHardware id])
    | Thrown st message =>
        (Error (status_or_500 st) "Failed to fetch asset" (Remote message),
         [GetHardware id])
    end.

(** [GET /api/user] *)
Definition get_user (apiToken : header) (w : outcome JS.value)
    : response JS.value * list lookup :=
  if negb (present apiToken) then (Error 401 "API token required" NoDetails, [])
  else
    match w with
    | Done data => (Json data, [GetUserMe])
    | Thrown st message =>
        (Error (status_or_500 st) "Failed to fetch user" (Remote message), [GetUserMe])
    end.

(** [POST /api/admin/verify]: [password === ADMIN_PASSWORD] *)
Definition admin_verify (ADMIN_PASSWORD : string) (password : JS.value) : response Ack.t :=
  if JS.strict_eq password (JS.Str ADMIN_PASSWORD)
  then Json (Ack.mk true)
  else Error 401 "Invalid password" NoDetails.

(** ** Export sheets *)





(** ** Vocabulary of the properties *)

(** A row changes in one way only: a mismatch is marked resolved. *)
Definition row_evolves (r r' : Row.t) : Prop :=
  r' = r ∨ (Row.status r = "mismatch" ∧ ∃ at_ by_, r' = mark_resolved at_ by_ r).

(** Every row found later under an id already handed out was there
    before, and changed at most by being marked resolved. *)
Definition db_evolves (d d' : db) : Prop :=
  seq d ≤ seq d' ∧
  ∀ k r', k ≤ seq d → audits d' !! k = Some r' →
          ∃ r, audits d !! k = Some r ∧ row_evolves r r'.

(** No mismatch carries a resolution stamp. *)
Definition db_clean (d : db) : Prop :=
  ∀ k r, audits d !! k = Some r → Row.status r = "mismatch" → Row.resolved_at r = JS.Null.

(** The test that ends the loop after a page. *)
Definition last_page (allAssets : list JS.value) (data : page) : Prop :=
  Z.of_nat (length (default [] (rows data))) < limit ∨
  ∃ t, total data = Some t ∧ t ≤ Z.of_nat (length (allAssets ++ default [] (rows data))).






(** A value that went through [x || null]. *)
Definition null_or_truthy (v : JS.value) : Prop := v = JS.Null ∨ JS.truthy v = true.

(** The offsets of [n] page requests in a row, from [offset] on. *)
Fixpoint page_offsets (offset : Z) (n : nat) : list Z :=
  match n with
  | O => []
  | S n' => offset :: page_offsets (offset + limit) n'
  end.

(** The rows of the page Snipe-IT answers at [offset]. *)
Definition page_rows (remote : Z → outcome page) (offset : Z) : list JS.value :=
  match remote offset with
  | Done data => default [] (rows data)
  | Thrown _ _ => []
  end.

(** The page request number [n] (from 0) of a loop entered with
    [allAssets] at [offset] ends the loop: it fails, or its page passes
    the test on the rows accumulated until then. *)
Definition ends_loop (remote : Z → outcome page) (allAssets : list JS.value) (offset : Z)
    (n : nat) : Prop :=
  match remote (offset + limit * Z.of_nat n) with
  | Thrown _ _ => True
  | Done data =>
      last_page (allAssets ++ concat (page_rows remote <$> page_offsets offset n)) data
  end.

(** Strings made of white space only, and strings that do not begin
    with white space. *)
Fixpoint all_space (s : string) : bool :=
  match s with
  | EmptyString => true
  | String c s' => white_space c && all_space s'
  end.

Definition starts_clean (s : string) : bool :=
  match s with
  | EmptyString => true
  | String c _ => negb (white_space c)
  end.

(** The test of [find_tag] on one asset, and the test of [find_sap]. *)
Definition tag_is (term : string) (a : JS.value) : option bool :=
  tag ← member a "asset_tag";
  if JS.truthy tag
  then s ← lower tag; Some (String.eqb s (toLowerCase term))
  else Some false.

Definition sap_is (term : string) (asset : JS.value) : option bool :=
  cf ← member asset "custom_fields";
  if JS.truthy cf
  then exact ← value_is (sap_field cf) term;
       if (exact : bool) then Some true else sap_scan term (entries cf)
  else Some false.

(** ** Sample requests and worlds *)

Module Sample.

Definition password : string := "admin123".
Definition admin : header := Some "admin123".
Definition token : header := Some "token".

Definition body (expected actual : JS.value) : Body.audit :=
  Body.mk_audit (JS.Num 7) (JS.Str "LAPTOP-001") (JS.Str "Laptop") JS.Undefined
    expected (JS.Str "Headquarters") actual (JS.Str "Lab") JS.Undefined (JS.Str "ana").

(** The column affinity, as far as the runs need it: a text of decimal
    digits reads as that number; a number, bound as a double, is kept
    in a TEXT column as its numeral followed by '.0'.  (SQLite reads
    more texts as numbers, with a sign, spaces around or an exponent;
    none occurs in the runs.) *)
Fixpoint digits (s : string) (n : Z) : option Z :=
  match s with
  | EmptyString => Some n
  | String c s' =>
      let d := nat_of_ascii c in
      if (48 <=? d)%nat && (d <=? 57)%nat
      then digits s' (10 * n + Z.of_nat (d - 48))
      else None
  end.

Definition numeral (s : string) : option Z :=
  match s with
  | EmptyString => None
  | _ => digits s 0
  end.

Definition real_text (n : Z) : string := pretty n +:+ ".0".

Definition remote_up : submit_env :=
  mk_submit_env (Done ()) false "2024-05-01 10:00:00" numeral real_text.

Definition remote_down : submit_env :=
  mk_submit_env (Thrown (Some 503) "Service Unavailable") false "2024-05-01 10:00:00"
                numeral real_text.

(** Three audits that found the asset elsewhere: rows 1, 2 and 3. *)
Definition three_mismatches : db :=
  run password
    [Submit token (body (JS.Num 1) (JS.Num 2)) remote_up;
     Submit token (body (JS.Num 1) (JS.Num 2)) remote_up;
     Submit token (body JS.Null (JS.Num 2)) remote_down]
    empty_db.

Definition patches_pass : nat → step_env :=
  λ _, mk_step_env None (Done ()) "2024-05-02T09:00:00.000Z" None.

(** The patch sent at the second id of the batch fails. *)
Definition middle_fails : nat → step_env :=
  λ i, mk_step_env None
         (if Nat.eqb i 1 then Thrown (Some 500) "Server Error" else Done ())
         "2024-05-02T09:00:00.000Z" None.

(** Two pages: 500 rows, then 100, of a reported total of 600. *)
Definition two_pages : Z → outcome page :=
  λ offset, Done (mk_page (Some (replicate (if Z.eqb offset 0 then 500 else 100)
                                           (JS.Obj [])))
                          (Some 600)).

(** Full pages for ever, and no total. *)
Definition endless : Z → outcome page :=
  λ _, Done (mk_page (Some (replicate 500 (JS.Obj []))) None).

(** Full pages for ever, of an inventory whose reported total stays
    ahead of the rows handed out. *)
Definition outrunning : Z → outcome page :=
  λ offset, Done (mk_page (Some (replicate 500 (JS.Obj []))) (Some (offset + 1000))).

(** An inventory of 1200 rows behind a Snipe-IT that reports no total:
    two full pages, then 200 rows. *)
Definition short_tail : Z → outcome page :=
  λ offset, Done (mk_page (Some (replicate (if offset <? 1000 then 500 else 200)
                                           (JS.Obj [])))
                          None).

Definition world (now : Z) (remote : Z → outcome page) : snapshot_env :=
  mk_snapshot_env now remote
    (λ v, match v with
          | JS.Str "2023-01-01T00:00:00Z" => Some 1672531200000
          | _ => None
          end)
    1704067200000 (λ _, now).

Definition snapshot0 : Snapshot.t := Snapshot.mk 0 [] [] [] [].

(** An asset without a last audit date, and one whose date object has
    neither [datetime] nor [formatted]. *)
Definition unaudited : JS.value := JS.Obj [("id", JS.Num 1); ("asset_tag", JS.Str "A-1")].
Definition blank_date : JS.value :=
  JS.Obj [("id", JS.Num 2); ("asset_tag", JS.Str "A-2"); ("last_audit_date", JS.Obj [])].

End Sample.

Module Scenario.

(** Two rows of a text search for 'laptop-001': a printer whose SAP
    field happens to hold that text, then the laptop with that tag. *)
Definition printer : JS.value :=
  JS.Obj [("id", JS.Num 2); ("asset_tag", JS.Str "PRN-7");
          ("custom_fields",
           JS.Obj [("Sap Nr", JS.Obj [("field", JS.Str "_snipeit_sap_nr_3");
                                      ("value", JS.Str "laptop-001")])])].

Definition laptop : JS.value :=
  JS.Obj [("id", JS.Num 1); ("asset_tag", JS.Str "LAPTOP-001");
          ("custom_fields",
           JS.Obj [("SAP Asset Number", JS.Obj [("field", JS.Str "_snipeit_sap_17");
                                                ("value", JS.Str "SAP-9")])])].

Definition found_by_search : JS.value :=
  JS.Obj [("total", JS.Num 2); ("rows", JS.Arr [printer; laptop])].

(** The lookup by tag fails, the text search answers the two rows. *)
Definition search_world : search_env :=
  mk_search_env (Thrown (Some 404) "Not Found") (Done found_by_search).

(** An asset audited on 1 January 2023 and due again on the same day. *)
Definition due : JS.value :=
  JS.Obj [("id", JS.Num 3); ("asset_tag", JS.Str "A-3");
          ("model", JS.Obj [("name", JS.Str "ThinkPad")]);
          ("last_audit_date", JS.Obj [("datetime", JS.Str "2023-01-01T00:00:00Z")]);
          ("next_audit_date", JS.Str "2023-01-01T00:00:00Z")].

(** An asset with a null custom field whose name contains 'sap'. *)
Definition unreadable : JS.value :=
  JS.Obj [("id", JS.Num 4); ("custom_fields", JS.Obj [("sap_code", JS.Null)])].

(** Two rows of a text search for 'écran-1' (its first letter is the
    code unit 233): the tag of the first is 'ÉCRAN-1', in capitals (its
    first letter is the code unit 201), the tag of the second is the
    term itself. *)
Definition ecran : string := String "233"%char "cran-1".

Definition ecran_capitals : JS.value :=
  JS.Obj [("id", JS.Num 5); ("asset_tag", JS.Str (String "201"%char "CRAN-1"))].

Definition ecran_small : JS.value :=
  JS.Obj [("id", JS.Num 6); ("asset_tag", JS.Str ecran)].

Definition ecran_world : search_env :=
  mk_search_env (Thrown (Some 404) "Not Found")
                (Done (JS.Obj [("total", JS.Num 2);
                               ("rows", JS.Arr [ecran_capitals; ecran_small])])).

(** A query made of one no-break space, and a tag between two of them. *)
Definition nbsp : string := String "160"%char "".
Definition padded : string := nbsp +:+ "LAPTOP-001" +:+ nbsp.

Definition one_page (assets : list JS.value) : Z → outcome page :=
  λ _, Done (mk_page (Some assets) (Some (Z.of_nat (length assets)))).



End Scenario.

(** * Properties *)

(** ** Strict equality and truthiness *)



Lemma strict_eq_sound a b : JS.strict_eq a b = true → a = b.
Proof.
  destruct a, b; simpl; try discriminate; try done.
  - intros H. apply Bool.eqb_prop in H. by subst.
  - intros H. apply Z.eqb_eq in H. by subst.
  - intros H. apply String.eqb_eq in H. by subst.
Qed.






(** ** The table under each statement *)

Lemma empty_db_wf : db_wf empty_db.
Proof. split; [done|]. intros k r H. simpl in H. by rewrite lookup_empty in H. Qed.

Lemma db_insert_Some fault mkrow d d' k :
  db_insert fault mkrow d = Some (d', k) →
  fault = false ∧ k = seq d + 1 ∧ not_null_ok (mkrow k) = true ∧
  d' = {| audits := <[k := mkrow k]> (audits d); seq := k |}.
Proof.
  unfold db_insert. destruct fault; [done|].
  destruct (not_null_ok _) eqn:E; [|done].
  intros [= <- <-]. by rewrite E.
Qed.

Lemma db_insert_wf fault mkrow d d' k :
  (∀ k, Row.id (mkrow k) = k) →
  db_wf d → db_insert fault mkrow d = Some (d', k) → db_wf d'.
Proof.
  intros Hid [Hseq Hwf] Hins. apply db_insert_Some in Hins as (_ & -> & _ & ->).
  split; simpl; [lia|]. intros k r. rewrite lookup_insert.
  case_decide as Hk.
  - intros [= <-]. subst k. split; [apply Hid|lia].
  - intros Hr. apply Hwf in Hr. lia.
Qed.

Lemma row_evolves_refl r : row_evolves r r.
Proof. by left. Qed.

Lemma row_evolves_trans r1 r2 r3 :
  row_evolves r1 r2 → row_evolves r2 r3 → row_evolves r1 r3.
Proof.
  intros [->|(Hm & at1 & by1 & ->)] [->|(Hm' & at2 & by2 & ->)].
  - by left.
  - right; eauto.
  - right; eauto.
  - simpl in Hm'. discriminate.
Qed.

Lemma row_evolves_resolved r r' :
  Row.status r ≠ "mismatch" → row_evolves r r' → r' = r.
Proof. intros Hne [->|[Hm _]]; [done|]. by destruct Hne. Qed.

Lemma db_resolve_wf at_ by_ k d : db_wf d → db_wf (db_resolve at_ by_ k d).
Proof.
  intros [Hseq Hwf]. split; [done|]. intros j r. simpl. rewrite lookup_alter.
  case_decide as Hj.
  - subst j. destruct (audits d !! k) as [r0|] eqn:E; simpl; [|done].
    intros [= <-]. apply Hwf in E. simpl. done.
  - apply Hwf.
Qed.

Lemma db_delete_wf k d : db_wf d → db_wf (db_delete k d).
Proof.
  intros [Hseq Hwf]. split; [done|]. intros j r. simpl. rewrite lookup_delete.
  case_decide; [done|]. apply Hwf.
Qed.

(** One turn of the loop either leaves the table alone or marks the
    row of its id, which was an unresolved mismatch. *)
Lemma resolve_one_table by_ w a p :
  table (resolve_one by_ w a p) = table p ∨
  ∃ r, audits (table p) !! a = Some r ∧ Row.status r = "mismatch" ∧
       JS.truthy (Row.resolved_at r) = false ∧
       select_fault w = None ∧ (∃ u, patch w = Done u) ∧ update_fault w = None ∧
       table (resolve_one by_ w a p)
       = db_resolve (JS.Str (now w)) (JS.or by_ (JS.Str "Admin")) a (table p).
Proof.
  unfold resolve_one, db_get.
  destruct (select_fault w); [by left|].
  destruct (audits (table p) !! a) as [r|] eqn:Hr; [|by left].
  destruct (String.eqb (Row.status r) "mismatch") eqn:Hs; simpl; [|by left].
  destruct (JS.truthy (Row.resolved_at r)) eqn:Ht; [by left|].
  destruct (patch w) as [u|] eqn:Hp; [|by left].
  destruct (update_fault w); [by left|].
  right. exists r. apply String.eqb_eq in Hs. eauto 10.
Qed.

Lemma resolve_one_wf by_ w a p : db_wf (table p) → db_wf (table (resolve_one by_ w a p)).
Proof.
  intros Hwf. destruct (resolve_one_table by_ w a p) as [->|(r & _ & _ & _ & _ & _ & _ & ->)];
    [done|by apply db_resolve_wf].
Qed.

Lemma resolve_one_row by_ w a p k :
  match audits (table p) !! k with
  | Some r => ∃ r', audits (table (resolve_one by_ w a p)) !! k = Some r' ∧ row_evolves r r'
  | None => audits (table (resolve_one by_ w a p)) !! k = None
  end.
Proof.
  destruct (resolve_one_table by_ w a p) as [->|(r & Hr & Hm & _ & _ & _ & _ & ->)].
  - destruct (audits (table p) !! k); eauto using row_evolves_refl.
  - simpl. rewrite lookup_alter. case_decide as Hk.
    + subst k. rewrite Hr. simpl. eexists; split; [done|]. right; eauto.
    + destruct (audits (table p) !! k); eauto using row_evolves_refl.
Qed.

Lemma resolve_one_seq by_ w a p : seq (table (resolve_one by_ w a p)) = seq (table p).
Proof.
  by destruct (resolve_one_table by_ w a p) as [->|(r & _ & _ & _ & _ & _ & _ & ->)].
Qed.

Lemma resolve_loop_wf by_ w ids : ∀ i p,
  db_wf (table p) → db_wf (table (resolve_loop by_ w i ids p)).
Proof.
  induction ids as [|a ids IH]; intros i p Hwf; simpl; [done|].
  apply IH. by apply resolve_one_wf.
Qed.

Lemma resolve_loop_seq by_ w ids : ∀ i p,
  seq (table (resolve_loop by_ w i ids p)) = seq (table p).
Proof.
  induction ids as [|a ids IH]; intros i p; simpl; [done|].
  rewrite IH. apply resolve_one_seq.
Qed.

Lemma resolve_loop_row by_ w ids k : ∀ i p,
  match audits (table p) !! k with
  | Some r => ∃ r', audits (table (resolve_loop by_ w i ids p)) !! k = Some r' ∧ row_evolves r r'
  | None => audits (table (resolve_loop by_ w i ids p)) !! k = None
  end.
Proof.
  induction ids as [|a ids IH]; intros i p; simpl.
  - destruct (audits (table p) !! k); eauto using row_evolves_refl.
  - pose proof (resolve_one_row by_ (w i) a p k) as H1.
    pose proof (IH (S i) (resolve_one by_ (w i) a p)) as H2.
    destruct (audits (table p) !! k) as [r|].
    + destruct H1 as (r1 & E1 & Hev1). rewrite E1 in H2.
      destruct H2 as (r2 & E2 & Hev2). eauto using row_evolves_trans.
    + by rewrite H1 in H2.
Qed.

(** ** Histories: what any sequence of requests can do to a row *)

Lemma db_evolves_refl d : db_evolves d d.
Proof. split; [lia|]. eauto using row_evolves_refl. Qed.

Lemma db_evolves_trans d1 d2 d3 : db_evolves d1 d2 → db_evolves d2 d3 → db_evolves d1 d3.
Proof.
  intros [Hs1 H1] [Hs2 H2]. split; [lia|]. intros k r3 Hk E3.
  destruct (H2 k r3) as (r2 & E2 & Hev2); [lia|done|].
  destruct (H1 k r2) as (r1 & E1 & Hev1); [lia|done|].
  eauto using row_evolves_trans.
Qed.

Lemma submit_audit_evolves apiToken b w d : db_evolves d (store (submit_audit apiToken b w d)).
Proof.
  unfold submit_audit. destruct (negb (present apiToken)); [apply db_evolves_refl|].
  destruct (db_insert _ _ d) as [[d' k]|] eqn:Hins; simpl; [|apply db_evolves_refl].
  apply db_insert_Some in Hins as (_ & -> & _ & ->).
  split; simpl; [lia|]. intros k r' Hk. rewrite lookup_insert_ne by lia.
  eauto using row_evolves_refl.
Qed.

Lemma resolve_loop_evolves by_ w ids i p : db_evolves (table p) (table (resolve_loop by_ w i ids p)).
Proof.
  split; [rewrite resolve_loop_seq; lia|]. intros k r' _ E.
  pose proof (resolve_loop_row by_ w ids k i p) as H.
  destruct (audits (table p) !! k) as [r|].
  - destruct H as (r2 & E2 & Hev). rewrite E in E2. injection E2 as <-. eauto.
  - congruence.
Qed.

Lemma resolve_audits_evolves pw adminPassword apiToken audit_ids by_ w d :
  db_evolves d (store (resolve_audits pw adminPassword apiToken audit_ids by_ w d)).
Proof.
  unfold resolve_audits. destruct (wrong_password _ _); [apply db_evolves_refl|].
  destruct (negb (present apiToken)); [apply db_evolves_refl|].
  destruct audit_ids as [| |[|a ids]]; try apply db_evolves_refl.
  apply (resolve_loop_evolves by_ w (a :: ids) 0%nat (start d)).
Qed.

Lemma delete_audit_evolves pw adminPassword id fault d :
  db_evolves d (store (delete_audit pw adminPassword id fault d)).
Proof.
  unfold delete_audit. destruct (wrong_password _ _); [apply db_evolves_refl|].
  destruct fault; [apply db_evolves_refl|]. destruct id as [k|]; [|apply db_evolves_refl].
  split; simpl; [lia|]. intros j r' _. rewrite lookup_delete.
  case_decide; [done|]. eauto using row_evolves_refl.
Qed.

Lemma apply_op_evolves pw o d : db_evolves d (apply_op pw o d).
Proof.
  destruct o; simpl;
    auto using submit_audit_evolves, resolve_audits_evolves, delete_audit_evolves.
Qed.

Lemma run_evolves pw ops : ∀ d, db_evolves d (run pw ops d).
Proof.
  induction ops as [|o ops IH]; intros d; simpl; [apply db_evolves_refl|].
  eapply db_evolves_trans; [apply apply_op_evolves|apply IH].
Qed.

(** The ids stay within the sequence, so an INSERT never lands on a
    row that is there: the audit trail only loses what is deleted. *)
Lemma apply_op_wf pw o d : db_wf d → db_wf (apply_op pw o d).
Proof.
  intros Hwf. destruct o as [tok b w|adm tok ids by_ w|adm id fault]; simpl.
  - unfold submit_audit. destruct (negb (present tok)); [done|].
    destruct (db_insert _ _ d) as [[d' k]|] eqn:Hins; simpl; [|done].
    by eapply db_insert_wf; [|done|exact Hins].
  - unfold resolve_audits. destruct (wrong_password _ _); [done|].
    destruct (negb (present tok)); [done|].
    destruct ids as [| |[|a ids]]; try done.
    by apply (resolve_loop_wf by_ w (a :: ids) 0%nat (start d)).
  - unfold delete_audit. destruct (wrong_password _ _); [done|].
    destruct fault; [done|]. destruct id as [k|]; [|done]. by apply db_delete_wf.
Qed.

Lemma run_wf pw ops : ∀ d, db_wf d → db_wf (run pw ops d).
Proof.
  induction ops as [|o ops IH]; intros d Hwf; simpl; [done|].
  by apply IH, apply_op_wf.
Qed.


(** ** Submit audit *)

(** What a successful submit did. *)
Lemma submit_audit_Json apiToken b w d r :
  reply (submit_audit apiToken b w d) = Json r →
  let status := audit_status (Body.expected_location_id b) (Body.actual_location_id b) in
  let posted := match post_audit w with Done _ => 1 | Thrown _ _ => 0 end in
  present apiToken = true ∧
  r = AuditReply.mk true (seq d + 1) status (Z.eqb posted 1) ∧
  store (submit_audit apiToken b w d)
  = {| audits := <[seq d + 1 := new_row w b status posted (seq d + 1)]> (audits d);
       seq := seq d + 1 |}.
Proof.
  unfold submit_audit. destruct (present apiToken); simpl; [|done].
  destruct (db_insert _ _ d) as [[d' k]|] eqn:Hins; simpl; [|done].
  apply db_insert_Some in Hins as (_ & -> & _ & ->). by intros [= <-].
Qed.




(** ** Resolve batch *)

(** One turn does one of two things: it marks the row of its id, an
    unresolved mismatch, and files a success; or it leaves the table
    alone and files an error. *)
Lemma resolve_one_cases by_ w a p :
  (∃ r, audits (table p) !! a = Some r ∧ Row.status r = "mismatch" ∧
        resolve_one by_ w a p
        = mk_progress
            (db_resolve (JS.Str (now w)) (JS.or by_ (JS.Str "Admin")) a (table p))
            (results p ++ [a]) (errors p)
            (sent p ++ [PatchHardware (Row.asset_id r) (Row.actual_location_id r)])) ∨
  (∃ message extra,
        resolve_one by_ w a p
        = mk_progress (table p) (results p) (errors p ++ [(a, message)])
            (sent p ++ extra)).
Proof.
  unfold resolve_one, db_get.
  destruct (select_fault w); [right; exists s, []; by rewrite app_nil_r|].
  destruct (audits (table p) !! a) as [r|]; [|right; eexists _, []; by rewrite app_nil_r].
  destruct (String.eqb (Row.status r) "mismatch") eqn:Hs; simpl;
    [|right; eexists _, []; by rewrite app_nil_r].
  destruct (JS.truthy _); [right; eexists _, []; by rewrite app_nil_r|].
  destruct (patch w); [|right; by eexists _, [_]].
  destruct (update_fault w); [right; by eexists _, [_]|].
  left. exists r. apply String.eqb_eq in Hs. done.
Qed.

Lemma resolve_one_items by_ w a p :
  let p' := resolve_one by_ w a p in
  (results p' = results p ++ [a] ∧ errors p' = errors p) ∨
  (results p' = results p ∧ ∃ message, errors p' = errors p ++ [(a, message)]).
Proof.
  destruct (resolve_one_cases by_ w a p) as [(r & _ & _ & ->)|(m & extra & ->)]; simpl; eauto.
Qed.

Lemma resolve_loop_items by_ w ids : ∀ i p,
  ∃ rs es,
    results (resolve_loop by_ w i ids p) = results p ++ rs ∧
    errors (resolve_loop by_ w i ids p) = errors p ++ es ∧
    rs `sublist_of` ids ∧ es.*1 `sublist_of` ids ∧
    ids ≡ₚ rs ++ es.*1.
Proof.
  induction ids as [|a ids IH]; intros i p; simpl.
  - exists [], []. rewrite !app_nil_r. split_and!; done.
  - destruct (IH (S i) (resolve_one by_ (w i) a p)) as (rs & es & Hr & He & Hsr & Hse & Hp).
    destruct (resolve_one_items by_ (w i) a p) as [[Hr1 He1]|[Hr1 [m He1]]];
      simpl in Hr1, He1; rewrite Hr1, He1 in *.
    + exists (a :: rs), es. rewrite Hr, He, <-app_assoc. simpl.
      split_and!; [done|done|by apply sublist_skip|by apply sublist_cons|by f_equiv].
    + exists rs, ((a, m) :: es). rewrite Hr, He, <-app_assoc. simpl.
      split_and!; [done|done|by apply sublist_cons|by apply sublist_skip|].
      rewrite <-Permutation_middle. by f_equiv.
Qed.




(** What an authorized batch with at least one id replies. *)
Lemma resolve_audits_Json pw adminPassword apiToken ids by_ w d :
  wrong_password pw adminPassword = false →
  present apiToken = true →
  ids ≠ [] →
  let p := resolve_loop by_ w 0 ids (start d) in
  resolve_audits pw adminPassword apiToken (Body.IdsArray ids) by_ w d
  = mkresult
      (Json (ResolveReply.mk (bool_decide (length (errors p) = 0%nat))
               (length (results p)) (length (errors p)) (results p) (errors p)))
      (table p) (sent p).
Proof.
  intros Hpw Htok Hids. unfold resolve_audits. rewrite Hpw, Htok. simpl.
  by destruct ids.
Qed.


(** ** Resolving twice *)

Lemma resolve_loop_clean by_ w ids : ∀ i p,
  db_clean (table p) → db_clean (table (resolve_loop by_ w i ids p)).
Proof.
  induction ids as [|a ids IH]; intros i p Hc; simpl; [done|].
  apply IH. destruct (resolve_one_table by_ (w i) a p) as [->|(r & _ & _ & _ & _ & _ & _ & ->)];
    [done|].
  intros k r'. simpl. rewrite lookup_alter. case_decide.
  - destruct (audits (table p) !! a); simpl; [|done]. intros [= <-]. simpl. done.
  - apply Hc.
Qed.

Lemma apply_op_clean pw o d : db_clean d → db_clean (apply_op pw o d).
Proof.
  intros Hc. destruct o as [tok b w|adm tok ids by_ w|adm id fault]; simpl.
  - unfold submit_audit. destruct (negb (present tok)); [done|].
    destruct (db_insert _ _ d) as [[d' k]|] eqn:Hins; simpl; [|done].
    apply db_insert_Some in Hins as (_ & -> & _ & ->).
    intros k r. simpl. rewrite lookup_insert. case_decide; [|apply Hc].
    by intros [= <-].
  - unfold resolve_audits. destruct (wrong_password _ _); [done|].
    destruct (negb (present tok)); [done|].
    destruct ids as [| |[|a ids]]; try done.
    by apply (resolve_loop_clean by_ w (a :: ids) 0%nat (start d)).
  - unfold delete_audit. destruct (wrong_password _ _); [done|].
    destruct fault; [done|]. destruct id as [k|]; [|done].
    intros j r. simpl. rewrite lookup_delete. case_decide; [done|]. apply Hc.
Qed.

(** In every table the service can have written, the guard that
    files 'Already resolved' (a mismatch with [resolved_at] set) finds
    nothing. *)
Lemma run_clean pw ops : ∀ d, db_clean d → db_clean (run pw ops d).
Proof.
  induction ops as [|o ops IH]; intros d Hc; simpl; [done|].
  by apply IH, apply_op_clean.
Qed.

Lemma empty_db_clean : db_clean empty_db.
Proof. intros k r H. simpl in H. by rewrite lookup_empty in H. Qed.

(** C4.  After a batch that resolved the audit [a], a second resolve of
    [a] leaves the whole table as the first call left it, so
    [resolved_at] and [resolved_by] of the row are those the first call
    set, it sends nothing to Snipe-IT, and it files one per-id error
    for [a].  The error filed is 'Audit is not a mismatch': the status
    guard comes first, and the guard that answers 'Already resolved' is
    not reached. *)
Theorem second_resolve_not_a_mismatch (ADMIN_PASSWORD : string)
    (adminPassword apiToken : header) (a : Z) (by1 by2 : JS.value)
    (w1 w2 : nat → step_env) (d : db) (r1 : ResolveReply.t) :
  wrong_password ADMIN_PASSWORD adminPassword = false →
  present apiToken = true →
  let first := resolve_audits ADMIN_PASSWORD adminPassword apiToken
                 (Body.IdsArray [a]) by1 w1 d in
  let second := resolve_audits ADMIN_PASSWORD adminPassword apiToken
                  (Body.IdsArray [a]) by2 w2 (store first) in
  reply first = Json r1 →
  ResolveReply.results r1 = [a] →
  select_fault (w2 0%nat) = None →
  (∃ row, audits (store first) !! a = Some row ∧
          Row.status row = "resolved" ∧
          Row.resolved_at row = JS.Str (now (w1 0%nat)) ∧
          Row.resolved_by row = JS.bound (JS.or by1 (JS.Str "Admin"))) ∧
  store second = store first ∧
  calls second = [] ∧
  reply second = Json (ResolveReply.mk false 0 1 [] [(a, "Audit is not a mismatch")]) ∧
  "Audit is not a mismatch" ≠ "Already resolved".
Proof.
  intros Hpw Htok first second Hr1 Hres Hsel. subst first second.
  rewrite !resolve_audits_Json by done. rewrite resolve_audits_Json in Hr1 by done.
  simpl in *. injection Hr1 as <-. simpl in Hres.
  destruct (resolve_one_cases by1 (w1 0%nat) a (start d))
    as [(r & E & Hm & Heq)|(m & extra & Heq)]; rewrite Heq in Hres |- *; simpl in *;
    [|discriminate].
  assert (alter (mark_resolved (JS.Str (now (w1 0%nat))) (JS.or by1 (JS.Str "Admin"))) a
            (audits d) !! a
          = Some (mark_resolved (JS.Str (now (w1 0%nat))) (JS.or by1 (JS.Str "Admin")) r))
    as Hrow by (by rewrite lookup_alter_eq, E).
  split.
  { eexists. split; [exact Hrow|]. simpl. done. }
  unfold resolve_one, db_get. simpl. rewrite Hsel, Hrow. simpl. done.
Qed.

(** ** Delete audit *)

(** C10.  An authorized [DELETE /api/audits/:id] that the driver runs
    answers success whether or not a row has the id; afterwards no row
    has the id, every other id maps to what it mapped to, nothing
    changes at all when the id had no row, and a second delete of the
    same id answers success again and changes nothing more. *)
Theorem delete_audit_idempotent (ADMIN_PASSWORD : string) (adminPassword : header)
    (id : option Z) (d : db) :
  wrong_password ADMIN_PASSWORD adminPassword = false →
  let res := delete_audit ADMIN_PASSWORD adminPassword id false d in
  let again := delete_audit ADMIN_PASSWORD adminPassword id false (store res) in
  reply res = Json (Ack.mk true) ∧
  calls res = [] ∧
  (∀ k, id = Some k → audits (store res) !! k = None) ∧
  (∀ j, id ≠ Some j → audits (store res) !! j = audits d !! j) ∧
  ((∀ k, id = Some k → audits d !! k = None) → store res = d) ∧
  reply again = Json (Ack.mk true) ∧
  store again = store res.
Proof.
  intros Hpw res again. subst res again. unfold delete_audit. rewrite Hpw. simpl.
  destruct id as [k|]; simpl.
  - split_and!; try done.
    + intros ? [= <-]. apply lookup_delete_eq.
    + intros j Hj. apply lookup_delete_ne. congruence.
    + intros Habs. unfold db_delete. rewrite delete_id by auto. by destruct d.
    + unfold db_delete. simpl. by rewrite delete_delete_eq.
  - split_and!; done.
Qed.

(** ** Date extraction *)

Lemma extractDate_falsy v : JS.truthy v = false → extractDate v = JS.Null.
Proof. intros H. unfold extractDate. by rewrite H. Qed.

Lemma extractDate_object ps :
  extractDate (JS.Obj ps)
  = if JS.truthy (JS.assoc "datetime" ps) then JS.assoc "datetime" ps
    else if JS.truthy (JS.assoc "formatted" ps) then JS.assoc "formatted" ps
    else JS.Null.
Proof. reflexivity. Qed.

(** C6, as the code has it.  Extraction yields null for an absent field
    and for every other falsy one, the empty string included; a
    non-empty string is used as it is; an object yields its [datetime]
    when that is truthy, otherwise its [formatted] when that is truthy,
    otherwise null; any other value yields null.  Parsing yields null
    when the extraction is falsy or the native parser rejects it, and
    the parsed time otherwise. *)
Theorem extractDate_parseDate_cases (date_time : JS.value → option Z) :
  extractDate JS.Undefined = JS.Null ∧
  (∀ v, JS.truthy v = false → extractDate v = JS.Null) ∧
  (∀ s, s ≠ "" → extractDate (JS.Str s) = JS.Str s) ∧
  (∀ ps, JS.truthy (JS.assoc "datetime" ps) = true →
         extractDate (JS.Obj ps) = JS.assoc "datetime" ps) ∧
  (∀ ps, JS.truthy (JS.assoc "datetime" ps) = false →
         JS.truthy (JS.assoc "formatted" ps) = true →
         extractDate (JS.Obj ps) = JS.assoc "formatted" ps) ∧
  (∀ ps, JS.truthy (JS.assoc "datetime" ps) = false →
         JS.truthy (JS.assoc "formatted" ps) = false →
         extractDate (JS.Obj ps) = JS.Null) ∧
  (∀ v, JS.is_string v = false → JS.prop v "datetime" = JS.Undefined →
        JS.prop v "formatted" = JS.Undefined → extractDate v = JS.Null) ∧
  (∀ v, JS.truthy (extractDate v) = false → parseDate date_time v = None) ∧
  (∀ v, date_time (extractDate v) = None → parseDate date_time v = None) ∧
  (∀ v t, JS.truthy (extractDate v) = true → date_time (extractDate v) = Some t →
          parseDate date_time v = Some t) ∧
  extractDate (JS.Obj [("datetime", JS.Str "2023-01-01T00:00:00Z")])
  = JS.Str "2023-01-01T00:00:00Z" ∧
  extractDate (JS.Obj [("formatted", JS.Str "Jan 1, 2023")]) = JS.Str "Jan 1, 2023" ∧
  extractDate (JS.Obj []) = JS.Null.
Proof.
  split_and!; try reflexivity.
  - apply extractDate_falsy.
  - intros s Hs. unfold extractDate. simpl.
    destruct (String.eqb s "") eqn:E; [|done]. by apply String.eqb_eq in E.
  - intros ps H. by rewrite extractDate_object, H.
  - intros ps H1 H2. by rewrite extractDate_object, H1, H2.
  - intros ps H1 H2. by rewrite extractDate_object, H1, H2.
  - intros v Hs H1 H2. unfold extractDate. rewrite Hs, H1, H2. simpl.
    rewrite !andb_false_r. by destruct (negb _).
  - intros v H. unfold parseDate. by rewrite H.
  - intros v H. unfold parseDate. rewrite H. by destruct (negb _).
  - intros v t H1 H2. unfold parseDate. by rewrite H1, H2.
Qed.

(** ** Classification *)

Lemma process_assets_lookup w allAssets : ∀ i processed j asset,
  process_assets w i allAssets = Some processed →
  allAssets !! j = Some asset →
  ∃ a, processed !! j = Some a ∧ process_asset w (i + j) asset = Some a.
Proof.
  induction allAssets as [|x rest IH]; intros i processed j asset Hp Hj; [done|].
  simpl in Hp.
  destruct (process_asset w i x) as [a|] eqn:Ea; simpl in Hp; [|done].
  destruct (process_assets w (S i) rest) as [tl|] eqn:Et; simpl in Hp; [|done].
  injection Hp as <-. destruct j as [|j]; simpl in *.
  - injection Hj as <-. rewrite Nat.add_0_r. eauto.
  - destruct (IH (S i) tl j asset Et Hj) as (a' & E1 & E2).
    exists a'. split; [done|]. by rewrite Nat.add_succ_r.
Qed.

Lemma process_assets_length w allAssets : ∀ i processed,
  process_assets w i allAssets = Some processed → length processed = length allAssets.
Proof.
  induction allAssets as [|x rest IH]; intros i processed Hp; simpl in Hp.
  - by injection Hp as <-.
  - destruct (process_asset w i x) as [a|]; simpl in Hp; [|done].
    destruct (process_assets w (S i) rest) as [tl|] eqn:Et; simpl in Hp; [|done].
    injection Hp as <-. simpl. f_equal. eauto.
Qed.

(** What [process_asset] makes of the last audit date. *)
Lemma process_asset_last w i asset a :
  process_asset w i asset = Some a →
  let last := JS.prop asset "last_audit_date" in
  Asset.last_audit_date a = extractDate last ∧
  Asset.never_audited a = negb (JS.truthy last) ∧
  Asset.not_audited_this_year a
  = match parseDate (date_time w) last with
    | Some t => t <? currentYearStart w
    | None => true
    end.
Proof.
  unfold process_asset, member. destruct (JS.nullish asset); simpl; [done|].
  destruct (sapAssetNumber _); simpl; [|done]. by intros [= <-].
Qed.

(** C5, as the code has it.  In every snapshot the classification
    produces, an asset whose raw [last_audit_date] is falsy (absent,
    null, empty) has extraction result null, is flagged [never_audited],
    sits in the never-audited bucket and not in the
    not-audited-this-year bucket; and no entry is in both buckets. *)
Theorem never_audited_bucket (w : snapshot_env) (allAssets : list JS.value)
    (snapshot : Snapshot.t) :
  classify w allAssets = Some snapshot →
  (∀ i asset, allAssets !! i = Some asset →
     JS.truthy (JS.prop asset "last_audit_date") = false →
     ∃ a, Snapshot.all_assets snapshot !! i = Some a ∧
          Asset.last_audit_date a = JS.Null ∧
          Asset.never_audited a = true ∧
          a ∈ Snapshot.never_audited snapshot ∧
          a ∉ Snapshot.not_audited_this_year snapshot) ∧
  (∀ a, a ∈ Snapshot.never_audited snapshot →
        a ∉ Snapshot.not_audited_this_year snapshot) ∧
  (∀ a, a ∈ Snapshot.never_audited snapshot ↔
        a ∈ Snapshot.all_assets snapshot ∧ Asset.never_audited a = true) ∧
  (∀ a, a ∈ Snapshot.not_audited_this_year snapshot ↔
        a ∈ Snapshot.all_assets snapshot ∧ Asset.never_audited a = false ∧
        Asset.not_audited_this_year a = true).
Proof.
  unfold classify. intros H.
  destruct (process_assets w 0 allAssets) as [processed|] eqn:Hp; simpl in H; [|done].
  injection H as <-. simpl.
  assert (∀ a, a ∈ filter (λ a, negb (Asset.never_audited a) &&
                                Asset.not_audited_this_year a = true) processed ↔
               a ∈ processed ∧ Asset.never_audited a = false ∧
               Asset.not_audited_this_year a = true) as Hstale.
  { intros a. rewrite list_elem_of_filter, andb_true_iff, negb_true_iff. tauto. }
  assert (∀ a, a ∈ filter (λ a, Asset.never_audited a = true) processed ↔
               a ∈ processed ∧ Asset.never_audited a = true) as Hnever.
  { intros a. rewrite list_elem_of_filter. tauto. }
  split_and!; [|intros a|done|done].
  - intros i asset Hi Hfalsy.
    destruct (process_assets_lookup w allAssets 0%nat processed i asset Hp Hi)
      as (a & Ea & Epa).
    apply process_asset_last in Epa as (Hlast & Hflag & _). simpl in *.
    rewrite Hfalsy in Hflag. simpl in Hflag.
    exists a. split_and!; [done| |done| |].
    + by rewrite Hlast, extractDate_falsy.
    + apply Hnever. split; [|done]. by eapply list_elem_of_lookup_2.
    + rewrite Hstale. intros (_ & Hf & _). congruence.
  - rewrite Hnever, Hstale. intros [_ Ht] (_ & Hf & _). congruence.
Qed.

(** ** Paged fetch *)

Lemma last_page_test allAssets data :
  (Z.of_nat (length (default [] (rows data))) <? limit)
  || total_reached (length (allAssets ++ default [] (rows data))) (total data) = true
  ↔ last_page allAssets data.
Proof.
  unfold last_page, total_reached. rewrite orb_true_iff, Z.ltb_lt.
  destruct (total data) as [t|].
  - rewrite Z.leb_le. split; intros [?|?]; eauto. right. by destruct H as (? & [= <-] & ?).
  - split; intros [?|?]; eauto; [done|]. by destruct H as (? & ? & ?).
Qed.

(** The loop returns at the first page that passes the test, and asks
    for no page after it. *)
Lemma fetch_pages_stop fuel remote allAssets offset data :
  remote offset = Done data →
  last_page allAssets data →
  fetch_pages (S fuel) remote allAssets offset
  = Some (Done (allAssets ++ default [] (rows data)), [GetHardwarePage limit offset]).
Proof.
  intros Hr Hl. apply last_page_test in Hl. simpl. by rewrite Hr, Hl.
Qed.

Lemma fetch_pages_more fuel remote allAssets offset data :
  remote offset = Done data →
  ¬ last_page allAssets data →
  fetch_pages (S fuel) remote allAssets offset
  = match fetch_pages fuel remote (allAssets ++ default [] (rows data)) (offset + limit) with
    | Some (r, sent) => Some (r, GetHardwarePage limit offset :: sent)
    | None => None
    end.
Proof.
  intros Hr Hl. rewrite <-last_page_test in Hl. apply not_true_is_false in Hl.
  simpl. by rewrite Hr, Hl.
Qed.

Lemma fetch_pages_thrown fuel remote allAssets offset st message :
  remote offset = Thrown st message →
  fetch_pages (S fuel) remote allAssets offset
  = Some (Thrown st message, [GetHardwarePage limit offset]).
Proof. intros Hr. simpl. by rewrite Hr. Qed.

(** With every reported total at most [T], [n + 1] turns suffice once
    the rows held are within [500 * (n + 1)] of [T]: a turn that goes on
    has added a full page and is still short of the total. *)
Lemma fetch_pages_bounded remote T :
  (∀ offset data, remote offset = Done data → ∃ t, total data = Some t ∧ t ≤ T) →
  ∀ n allAssets offset,
    T ≤ Z.of_nat (length allAssets) + limit * Z.of_nat (S n) →
    ∃ r sent, (length sent ≤ S n)%nat ∧
      ∀ fuel, (n < fuel)%nat → fetch_pages fuel remote allAssets offset = Some (r, sent).
Proof.
  intros Htotal. induction n as [|n IH]; intros allAssets offset Hn;
    (destruct (remote offset) as [data|st message] eqn:Hr;
     [|exists (Thrown st message), [GetHardwarePage limit offset];
       split; [simpl; lia|]; intros [|fuel] Hf; [lia|]; by apply fetch_pages_thrown]);
    (assert (last_page allAssets data ∨ ¬ last_page allAssets data) as [Hl|Hl]
       by (rewrite <-last_page_test; destruct (_ || _); [by left|by right]);
     [exists (Done (allAssets ++ default [] (rows data))), [GetHardwarePage limit offset];
      split; [simpl; lia|]; intros [|fuel] Hf; [lia|]; by apply fetch_pages_stop|]);
    destruct (Htotal _ _ Hr) as (t & Ht & Hle);
    assert (¬ t ≤ Z.of_nat (length (allAssets ++ default [] (rows data)))) as Hshort
      by (intros ?; apply Hl; right; eauto);
    assert (¬ Z.of_nat (length (default [] (rows data))) < limit) as Hfull
      by (intros ?; apply Hl; by left);
    rewrite length_app in Hshort; unfold limit in *.
  - lia.
  - destruct (IH (allAssets ++ default [] (rows data)) (offset + 500))
      as (r & sent & Hlen & Hrun); [rewrite length_app; lia|].
    exists r, (GetHardwarePage 500 offset :: sent).
    split; [simpl; lia|]. intros [|fuel] Hf; [lia|].
    rewrite (fetch_pages_more _ _ _ _ data) by done. unfold limit. rewrite Hrun by lia. done.
Qed.

Lemma classify_total w allAssets snapshot :
  classify w allAssets = Some snapshot →
  Snapshot.total snapshot = length allAssets ∧
  length (Snapshot.all_assets snapshot) = length allAssets.
Proof.
  unfold classify. destruct (process_assets w 0 allAssets) as [processed|] eqn:Hp; simpl; [|done].
  intros [= <-]. simpl. split; [done|]. by eapply process_assets_length.
Qed.

Lemma last_page_dec allAssets data : last_page allAssets data ∨ ¬ last_page allAssets data.
Proof. rewrite <-last_page_test. destruct (_ || _); [by left|by right]. Qed.

Lemma ends_loop_0 remote allAssets offset :
  ends_loop remote allAssets offset 0
  ↔ match remote offset with
    | Thrown _ _ => True
    | Done data => last_page allAssets data
    end.
Proof.
  unfold ends_loop. change (limit * Z.of_nat 0) with 0.
  rewrite Z.add_0_r. simpl. by rewrite app_nil_r.
Qed.

Lemma ends_loop_S remote allAssets offset n :
  ends_loop remote allAssets offset (S n)
  ↔ ends_loop remote (allAssets ++ page_rows remote offset) (offset + limit) n.
Proof.
  unfold ends_loop.
  replace (offset + limit * Z.of_nat (S n)) with (offset + limit + limit * Z.of_nat n) by lia.
  change (page_offsets offset (S n)) with (offset :: page_offsets (offset + limit) n).
  rewrite fmap_cons. simpl concat. by rewrite app_assoc.
Qed.

(** A loop that some page request ends returns, and has sent no
    request after that one. *)
Lemma fetch_pages_ends remote : ∀ n allAssets offset,
  ends_loop remote allAssets offset n →
  ∃ r sent, (length sent ≤ S n)%nat ∧
    ∀ fuel, (n < fuel)%nat → fetch_pages fuel remote allAssets offset = Some (r, sent).
Proof.
  induction n as [|n IH]; intros allAssets offset He;
    (destruct (remote offset) as [data|st message] eqn:Hr;
     [|exists (Thrown st message), [GetHardwarePage limit offset];
       split; [simpl; lia|]; intros [|fuel] Hf; [lia|]; by apply fetch_pages_thrown]).
  - apply (proj1 (ends_loop_0 _ _ _)) in He. rewrite Hr in He.
    exists (Done (allAssets ++ default [] (rows data))), [GetHardwarePage limit offset].
    split; [simpl; lia|]. intros [|fuel] Hf; [lia|]. by apply fetch_pages_stop.
  - destruct (last_page_dec allAssets data) as [Hl|Hl].
    + exists (Done (allAssets ++ default [] (rows data))), [GetHardwarePage limit offset].
      split; [simpl; lia|]. intros [|fuel] Hf; [lia|]. by apply fetch_pages_stop.
    + apply (proj1 (ends_loop_S _ _ _ _)) in He. unfold page_rows in He at 1.
      rewrite Hr in He.
      destruct (IH _ _ He) as (r & sent & Hlen & Hrun).
      exists r, (GetHardwarePage limit offset :: sent).
      split; [simpl; lia|]. intros [|fuel] Hf; [lia|].
      rewrite (fetch_pages_more _ _ _ _ data) by done. rewrite Hrun by lia. done.
Qed.

(** A loop that returns was ended by its last page request, and by
    none before. *)
Lemma fetch_pages_returns remote : ∀ fuel allAssets offset r sent,
  fetch_pages fuel remote allAssets offset = Some (r, sent) →
  ∃ n, length sent = S n ∧ ends_loop remote allAssets offset n ∧
       ∀ j, (j < n)%nat → ¬ ends_loop remote allAssets offset j.
Proof.
  induction fuel as [|fuel IH]; intros allAssets offset r sent H; [done|].
  destruct (remote offset) as [data|st message] eqn:Hr.
  - destruct (last_page_dec allAssets data) as [Hl|Hl].
    + rewrite (fetch_pages_stop _ _ _ _ data) in H by done. injection H as <- <-.
      exists 0%nat. split; [done|]. split; [apply (proj2 (ends_loop_0 _ _ _)); by rewrite Hr|].
      intros j Hj. lia.
    + rewrite (fetch_pages_more _ _ _ _ data) in H by done.
      destruct (fetch_pages fuel remote _ _) as [[r' sent']|] eqn:E; [|done].
      injection H as <- <-.
      destruct (IH _ _ _ _ E) as (n & Hlen & He & Hfirst).
      exists (S n). split; [simpl; by rewrite Hlen|].
      split; [apply (proj2 (ends_loop_S _ _ _ _)); unfold page_rows at 1; by rewrite Hr|].
      intros [|j] Hj.
      * rewrite ends_loop_0, Hr. done.
      * rewrite ends_loop_S. unfold page_rows at 1. rewrite Hr. apply Hfirst. lia.
  - rewrite (fetch_pages_thrown _ _ _ _ st message) in H by done. injection H as <- <-.
    exists 0%nat. split; [done|]. split; [apply (proj2 (ends_loop_0 _ _ _)); by rewrite Hr|].
    intros j Hj. lia.
Qed.

(** C8, as the code has it.  The paging loop returns exactly when some
    page request ends it, by failing or by a page that passes the test:
    if the request number [n] does, the loop returns after at most
    [n + 1] requests, whatever the fuel above [n]; and a loop that
    returns was ended by its last request and by none before.  A page of
    fewer than 500 rows ends the loop whether a total is reported or
    not; and when every page response reports a total of at most [T],
    [T / 500 + 1] requests are enough.  At any turn, a page of fewer
    than 500 rows, or an accumulated count that reaches the reported
    total, makes the loop return the rows accumulated so far without a
    further request.  The snapshot built from the accumulated rows has
    their number as its total. *)
Theorem fetch_pages_terminates (remote : Z → outcome page) :
  (∀ n, ends_loop remote [] 0 n →
     ∃ r sent,
       (length sent ≤ S n)%nat ∧
       ∀ fuel, (n < fuel)%nat → fetch_pages fuel remote [] 0 = Some (r, sent)) ∧
  (∀ fuel r sent,
     fetch_pages fuel remote [] 0 = Some (r, sent) →
     ∃ n, length sent = S n ∧ ends_loop remote [] 0 n ∧
          ∀ j, (j < n)%nat → ¬ ends_loop remote [] 0 j) ∧
  (∀ n data,
     remote (limit * Z.of_nat n) = Done data →
     Z.of_nat (length (default [] (rows data))) < limit →
     ends_loop remote [] 0 n) ∧
  (∀ T,
     (∀ offset data, remote offset = Done data → ∃ t, total data = Some t ∧ t ≤ T) →
     ∃ r sent,
       (length sent ≤ S (Z.to_nat (T / limit)))%nat ∧
       ∀ fuel, (Z.to_nat (T / limit) < fuel)%nat →
               fetch_pages fuel remote [] 0 = Some (r, sent)) ∧
  (∀ fuel allAssets offset data,
     remote offset = Done data → last_page allAssets data →
     fetch_pages (S fuel) remote allAssets offset
     = Some (Done (allAssets ++ default [] (rows data)), [GetHardwarePage limit offset])) ∧
  (∀ w allAssets snapshot,
     classify w allAssets = Some snapshot →
     Snapshot.total snapshot = length allAssets ∧
     length (Snapshot.all_assets snapshot) = length allAssets).
Proof.
  split_and!.
  - intros n. apply fetch_pages_ends.
  - intros fuel r sent. apply fetch_pages_returns.
  - intros n data Hr Hshort. unfold ends_loop. rewrite Z.add_0_l, Hr. by left.
  - intros T Htotal. apply (fetch_pages_bounded remote T Htotal). simpl. unfold limit.
    destruct (Z.le_gt_cases 0 T) as [Hpos|Hneg].
    + rewrite Nat2Z.inj_succ, Z2Nat.id by (apply Z.div_pos; lia).
      pose proof (Z.mul_succ_div_gt T 500 ltac:(lia)). lia.
    + lia.
  - intros. by apply fetch_pages_stop.
  - apply classify_total.
Qed.

(** ** Snapshot cache *)

Lemma cache_fresh_Some c now snapshot t :
  cache_fresh c now = Some (snapshot, t) ↔
  data c = Some snapshot ∧ timestamp c = Some t ∧ t ≠ 0 ∧ now - t < ttl.
Proof.
  unfold cache_fresh. destruct (data c) as [s0|], (timestamp c) as [t0|];
    try (split; [done|by intros (? & ? & _)]).
  destruct (Z.eqb_spec t0 0) as [->|Hne]; simpl.
  - split; [done|]. intros (_ & [= <-] & ? & _). done.
  - destruct (Z.ltb_spec (now - t0) ttl) as [Hlt|Hge].
    + split; [by intros [= <- <-]|by intros ([= <-] & [= <-] & _)].
    + split; [done|]. intros (_ & [= <-] & _ & ?). lia.
Qed.

Lemma cache_fresh_None c now :
  cache_fresh c now = None ↔
  data c = None ∨ timestamp c = None ∨ timestamp c = Some 0 ∨
  ∃ t, timestamp c = Some t ∧ ttl ≤ now - t.
Proof.
  unfold cache_fresh. destruct (data c) as [s0|], (timestamp c) as [t0|];
    try (split; [by auto|done]).
  destruct (Z.eqb_spec t0 0) as [->|Hne]; simpl; [split; [by auto|done]|].
  destruct (Z.ltb_spec (now - t0) ttl) as [Hlt|Hge].
  - split; [done|]. intros [?|[?|[[= ?]|(t & [= <-] & ?)]]]; try done. lia.
  - split; [|done]. intros _. right. right. right. eauto.
Qed.

Lemma round_seconds_nearest ms :
  1000 * round_seconds ms - 500 ≤ ms < 1000 * round_seconds ms + 500.
Proof.
  unfold round_seconds.
  pose proof (Z.mul_div_le (ms + 500) 1000 ltac:(lia)).
  pose proof (Z.mul_succ_div_gt (ms + 500) 1000 ltac:(lia)). lia.
Qed.

(** C7, as the code has it.  For an authorized
    [GET /api/snipeit/assets]: when no refresh is forced, the slot holds
    a snapshot and a timestamp, and [now - timestamp < 600000], the
    reply is the stored snapshot with [cached] true and [cache_age] the
    age rounded to the nearest second, the slot is left as it is and
    nothing is fetched.  In every other case (refresh forced, slot empty
    as at startup, age 600000 ms or more) the pages are fetched again;
    when the fetch and the classification complete, the reply is the
    new snapshot with [cached] false and [cache_age] 0 and the slot
    holds the snapshot with [now]; when either throws, the reply is the
    error and the slot is left as it is. *)
Theorem snapshot_cache_get (ADMIN_PASSWORD : string) (adminPassword apiToken : header)
    (refresh : option string) (fuel : nat) (w : snapshot_env) (c : assetCache) :
  wrong_password ADMIN_PASSWORD adminPassword = false →
  present apiToken = true →
  let now := date_now w in
  let get := get_assets ADMIN_PASSWORD adminPassword apiToken refresh fuel w c in
  (∀ snapshot t,
     refresh ≠ Some "true" → data c = Some snapshot → timestamp c = Some t →
     t ≠ 0 → now - t < 600000 →
     get = Some (Json (SnapshotReply.mk snapshot true (round_seconds (now - t))), c, []) ∧
     1000 * round_seconds (now - t) - 500 ≤ now - t < 1000 * round_seconds (now - t) + 500) ∧
  (refresh = Some "true" ∨ data c = None ∨ timestamp c = None ∨ timestamp c = Some 0 ∨
   (∃ t, timestamp c = Some t ∧ 600000 ≤ now - t) →
   (∀ allAssets sent,
      fetch_pages fuel (hardware_page w) [] 0 = Some (Done allAssets, sent) →
      sent ≠ [] ∧
      (∀ snapshot, classify w allAssets = Some snapshot →
         get = Some (Json (SnapshotReply.mk snapshot false 0),
                     mk_cache (Some snapshot) (Some now), sent)) ∧
      (classify w allAssets = None →
         get = Some (Error 500 "Failed to fetch assets from Snipe-IT" Engine, c, sent))) ∧
   (∀ st message sent,
      fetch_pages fuel (hardware_page w) [] 0 = Some (Thrown st message, sent) →
      get = Some (Error (status_or_500 st) "Failed to fetch assets from Snipe-IT"
                    (Remote message), c, sent))) ∧
  cache_fresh startup_cache now = None.
Proof.
  intros Hpw Htok now get. subst get. unfold get_assets. rewrite Hpw, Htok. cbn [negb].
  fold now.
  split_and!; [|intros Hmiss|done].
  - intros snapshot t Hrefresh Hdata Hts Ht Hage.
    rewrite bool_decide_eq_false_2 by done.
    assert (cache_fresh c now = Some (snapshot, t)) as ->
      by (apply cache_fresh_Some; unfold ttl; split_and!; (done || lia)).
    split; [done|]. apply round_seconds_nearest.
  - assert ((if bool_decide (refresh = Some "true") then None else cache_fresh c now) = None)
      as ->.
    { case_bool_decide; [done|]. apply cache_fresh_None.
      destruct Hmiss as [?|[?|[?|[?|?]]]]; [done|by auto..]. }
    split.
    + intros allAssets sent Hfetch. rewrite Hfetch. split_and!.
      * destruct fuel as [|fuel]; [done|]. simpl in Hfetch.
        destruct (hardware_page w 0); [|by injection Hfetch as _ <-].
        destruct (_ || _); [by injection Hfetch as _ <-|].
        destruct (fetch_pages fuel _ _ _) as [[? ?]|]; [|done]. by injection Hfetch as _ <-.
      * by intros snapshot ->.
      * by intros ->.
    + intros st message sent Hfetch. by rewrite Hfetch.
Qed.

(** ** Validation *)

(** C9.  With the credentials of the route present, missing input is
    answered with the 400 validation error of the route and no request
    is sent to Snipe-IT: an absent, empty or blank search term; a
    missing (falsy) [location_id]; [audit_ids] missing, not an array, or
    empty.  Whatever the credentials, a request with missing input
    sends nothing to Snipe-IT; and a reply that is one of these
    validation errors never follows a remote call, so it cannot be
    taken for the relay of a remote error. *)
Theorem validation_before_remote (ADMIN_PASSWORD : string) :
  (∀ apiToken query w,
     query = None ∨ (∃ q, query = Some q ∧ trim q = "") →
     snd (search_assets apiToken query w) = [] ∧
     (present apiToken = true →
      search_assets apiToken query w = (Error 400 "Search query required" NoDetails, []))) ∧
  (∀ adminPassword apiToken location_id id w,
     JS.truthy location_id = false →
     snd (patch_location ADMIN_PASSWORD adminPassword apiToken location_id id w) = [] ∧
     (wrong_password ADMIN_PASSWORD adminPassword = false → present apiToken = true →
      patch_location ADMIN_PASSWORD adminPassword apiToken location_id id w
      = (Error 400 "location_id is required" NoDetails, []))) ∧
  (∀ adminPassword apiToken audit_ids resolved_by w d,
     audit_ids = Body.IdsFalsy ∨ audit_ids = Body.IdsNotArray ∨ audit_ids = Body.IdsArray [] →
     let res := resolve_audits ADMIN_PASSWORD adminPassword apiToken audit_ids resolved_by w d in
     calls res = [] ∧ store res = d ∧
     (wrong_password ADMIN_PASSWORD adminPassword = false → present apiToken = true →
      reply res = Error 400 "audit_ids array is required" NoDetails)) ∧
  (∀ apiToken query w code details,
     fst (search_assets apiToken query w) = Error code "Search query required" details →
     snd (search_assets apiToken query w) = []) ∧
  (∀ adminPassword apiToken location_id id w code details,
     fst (patch_location ADMIN_PASSWORD adminPassword apiToken location_id id w)
     = Error code "location_id is required" details →
     snd (patch_location ADMIN_PASSWORD adminPassword apiToken location_id id w) = []) ∧
  (∀ adminPassword apiToken audit_ids resolved_by w d code details,
     reply (resolve_audits ADMIN_PASSWORD adminPassword apiToken audit_ids resolved_by w d)
     = Error code "audit_ids array is required" details →
     calls (resolve_audits ADMIN_PASSWORD adminPassword apiToken audit_ids resolved_by w d)
     = []).
Proof.
  split_and!.
  - intros apiToken query w Hq.
    assert (query_missing query = true) as Hm.
    { destruct Hq as [->|(q & -> & Hq)]; [done|]. simpl. rewrite Hq. apply orb_true_r. }
    unfold search_assets. rewrite Hm. destruct (present apiToken); simpl; done.
  - intros adminPassword apiToken location_id id w Hl. unfold patch_location. rewrite Hl.
    destruct (wrong_password _ _); [done|]. destruct (present apiToken); simpl; done.
  - intros adminPassword apiToken audit_ids resolved_by w d Hids res. subst res.
    unfold resolve_audits.
    destruct (wrong_password _ _); [done|]. destruct (present apiToken); simpl; [|done].
    by destruct Hids as [->|[->| ->]].
  - intros apiToken query w code details. unfold search_assets.
    destruct (negb (present apiToken)); [done|]. destruct (query_missing query); [done|].
    destruct (by_tag w) as [data|]; [destruct (_ && _); [done|]|];
      (destruct (by_search w) as [data'|]; [|done];
       by destruct (search_rows _ _) as [[?|]|]).
  - intros adminPassword apiToken location_id id w code details. unfold patch_location.
    destruct (wrong_password _ _); [done|]. destruct (negb (present apiToken)); [done|].
    destruct (negb (JS.truthy location_id)); [done|]. by destruct w.
  - intros adminPassword apiToken audit_ids resolved_by w d code details.
    unfold resolve_audits.
    destruct (wrong_password _ _); [done|]. destruct (negb (present apiToken)); [done|].
    by destruct audit_ids as [| |[|a ids]].
Qed.

(** * Concrete runs *)


(** The statuses of four bodies: the same number twice, the same text
    twice, a number against its text, and a missing expected location. *)
Example submit_statuses :
  let status_of e a :=
    reply (submit_audit Sample.token (Sample.body e a) Sample.remote_up empty_db) in
  status_of (JS.Num 3) (JS.Num 3) = Json (AuditReply.mk true 1 "match" true) ∧
  status_of (JS.Str "3") (JS.Str "3") = Json (AuditReply.mk true 1 "match" true) ∧
  status_of (JS.Num 3) (JS.Str "3") = Json (AuditReply.mk true 1 "mismatch" true) ∧
  status_of JS.Null (JS.Num 3) = Json (AuditReply.mk true 1 "mismatch" true) ∧
  status_of JS.Undefined (JS.Num 3) = Json (AuditReply.mk true 1 "mismatch" true).
Proof. vm_compute. split_and!; reflexivity. Qed.


(** The scenario of the specification: three ids, the patch of the
    middle one fails. *)
Example resolve_three_middle_fails :
  let res := resolve_audits Sample.password Sample.admin Sample.token
               (Body.IdsArray [1; 2; 3]) (JS.Str "root") Sample.middle_fails
               Sample.three_mismatches in
  reply res = Json (ResolveReply.mk false 2 1 [1; 3] [(2, "Server Error")]) ∧
  Row.status <$> audits (store res) !! 1 = Some "resolved" ∧
  Row.status <$> audits (store res) !! 2 = Some "mismatch" ∧
  Row.status <$> audits (store res) !! 3 = Some "resolved" ∧
  calls res = [PatchHardware (JS.Num 7) (JS.Num 2); PatchHardware (JS.Num 7) (JS.Num 2);
               PatchHardware (JS.Num 7) (JS.Num 2)].
Proof. vm_compute. split_and!; reflexivity. Qed.


Lemma second_resolve_not_a_mismatch_witness :
  let first := resolve_audits Sample.password Sample.admin Sample.token
                 (Body.IdsArray [1]) (JS.Str "root") Sample.patches_pass
                 Sample.three_mismatches in
  let second := resolve_audits Sample.password Sample.admin Sample.token
                  (Body.IdsArray [1]) (JS.Str "eve") Sample.patches_pass (store first) in
  reply first = Json (ResolveReply.mk true 1 0 [1] []) ∧
  (∃ row, audits (store first) !! 1 = Some row ∧
          Row.status row = "resolved" ∧
          Row.resolved_at row = JS.Str "2024-05-02T09:00:00.000Z" ∧
          Row.resolved_by row = JS.Str "root") ∧
  store second = store first ∧
  calls second = [] ∧
  reply second = Json (ResolveReply.mk false 0 1 [] [(1, "Audit is not a mismatch")]) ∧
  "Audit is not a mismatch" ≠ "Already resolved".
Proof.
  intros first second. split; [vm_compute; reflexivity|].
  exact (second_resolve_not_a_mismatch Sample.password Sample.admin Sample.token 1
           (JS.Str "root") (JS.Str "eve") Sample.patches_pass Sample.patches_pass
           Sample.three_mismatches (ResolveReply.mk true 1 0 [1] [])
           eq_refl eq_refl eq_refl eq_refl eq_refl).
Defined.

Lemma delete_audit_idempotent_witness :
  let res := delete_audit Sample.password Sample.admin (Some 9) false
               Sample.three_mismatches in
  let again := delete_audit Sample.password Sample.admin (Some 9) false (store res) in
  wrong_password Sample.password Sample.admin = false ∧
  audits Sample.three_mismatches !! 9 = None ∧
  reply res = Json (Ack.mk true) ∧
  calls res = [] ∧
  (∀ k, Some 9 = Some k → audits (store res) !! k = None) ∧
  (∀ j, Some 9 ≠ Some j → audits (store res) !! j = audits Sample.three_mismatches !! j) ∧
  ((∀ k, Some 9 = Some k → audits Sample.three_mismatches !! k = None) →
   store res = Sample.three_mismatches) ∧
  reply again = Json (Ack.mk true) ∧
  store again = store res.
Proof.
  intros res again. split; [reflexivity|]. split; [vm_compute; reflexivity|].
  exact (delete_audit_idempotent Sample.password Sample.admin (Some 9)
           Sample.three_mismatches eq_refl).
Defined.

(** C6 does not hold for every string: the empty one is not used as it
    is but turned into null. *)
Lemma extractDate_empty_string_is_null :
  extractDate (JS.Str "") = JS.Null ∧ ¬ (∀ s, extractDate (JS.Str s) = JS.Str s).
Proof. split; [reflexivity|]. intros H. specialize (H ""). discriminate H. Qed.

(** C5 does not hold for every null extraction result: an asset whose
    date object has neither field has extraction result null, and yet
    is not flagged never-audited and is put in the
    not-audited-this-year bucket. *)
Lemma extraction_null_not_never_audited :
  ∃ snapshot a,
    classify (Sample.world 1714000000000 Sample.two_pages) [Sample.blank_date] = Some snapshot ∧
    Snapshot.all_assets snapshot = [a] ∧
    extractDate (JS.prop Sample.blank_date "last_audit_date") = JS.Null ∧
    Asset.last_audit_date a = JS.Null ∧
    Asset.never_audited a = false ∧
    Snapshot.never_audited snapshot = [] ∧
    Snapshot.not_audited_this_year snapshot = [a].
Proof. eexists _, _. vm_compute. split_and!; reflexivity. Qed.

Lemma never_audited_bucket_witness :
  let w := Sample.world 1714000000000 Sample.two_pages in
  let allAssets := [Sample.unaudited; Sample.blank_date] in
  ∃ snapshot,
  classify w allAssets = Some snapshot ∧
  (∀ i asset, allAssets !! i = Some asset →
     JS.truthy (JS.prop asset "last_audit_date") = false →
     ∃ a, Snapshot.all_assets snapshot !! i = Some a ∧
          Asset.last_audit_date a = JS.Null ∧
          Asset.never_audited a = true ∧
          a ∈ Snapshot.never_audited snapshot ∧
          a ∉ Snapshot.not_audited_this_year snapshot) ∧
  (∀ a, a ∈ Snapshot.never_audited snapshot →
        a ∉ Snapshot.not_audited_this_year snapshot) ∧
  (∀ a, a ∈ Snapshot.never_audited snapshot ↔
        a ∈ Snapshot.all_assets snapshot ∧ Asset.never_audited a = true) ∧
  (∀ a, a ∈ Snapshot.not_audited_this_year snapshot ↔
        a ∈ Snapshot.all_assets snapshot ∧ Asset.never_audited a = false ∧
        Asset.not_audited_this_year a = true).
Proof.
  intros w allAssets.
  destruct (classify w allAssets) as [snapshot|] eqn:E; [|vm_compute in E; discriminate E].
  exists snapshot. split; [reflexivity|].
  exact (never_audited_bucket w allAssets snapshot E).
Defined.

(** C7 does not hold for the age: on a cache hit five seconds after the
    snapshot was stored the age reported is 5, not [now - timestamp]. *)
Lemma cache_age_is_in_seconds :
  let c := mk_cache (Some Sample.snapshot0) (Some 1000) in
  ∃ r, get_assets Sample.password Sample.admin Sample.token None 0
         (Sample.world 6000 Sample.two_pages) c
       = Some (Json r, c, []) ∧
       SnapshotReply.cached r = true ∧
       SnapshotReply.cache_age r = 5 ∧
       SnapshotReply.cache_age r ≠ 6000 - 1000.
Proof. eexists. split; [reflexivity|]. split_and!; [reflexivity|reflexivity|discriminate]. Qed.

(** C8 does not hold without a condition on Snipe-IT: against a remote
    that always answers with a full page and reports no total, and
    against one whose reported total stays ahead of the rows handed
    out, no amount of fuel lets the loop return. *)
Lemma fetch_pages_endless :
  (¬ ∃ fuel, is_Some (fetch_pages fuel Sample.endless [] 0)) ∧
  (¬ ∃ fuel, is_Some (fetch_pages fuel Sample.outrunning [] 0)).
Proof.
  split.
  - assert (∀ fuel allAssets offset,
              fetch_pages fuel Sample.endless allAssets offset = None) as H.
    { induction fuel as [|fuel IH]; intros allAssets offset; [done|].
      rewrite (fetch_pages_more _ _ _ _ (mk_page (Some (replicate 500 (JS.Obj []))) None));
        [by rewrite IH|done|].
      intros [Hshort|(t & Ht & _)]; [|done].
      change (Z.of_nat (length (replicate 500 (JS.Obj []))) < limit) in Hshort.
      rewrite length_replicate in Hshort. unfold limit in Hshort. lia. }
    intros [fuel [x Hx]]. by rewrite H in Hx.
  - assert (∀ fuel allAssets offset,
              Z.of_nat (length allAssets) ≤ offset →
              fetch_pages fuel Sample.outrunning allAssets offset = None) as H.
    { induction fuel as [|fuel IH]; intros allAssets offset Hlen; [done|].
      rewrite (fetch_pages_more _ _ _ _
                 (mk_page (Some (replicate 500 (JS.Obj []))) (Some (offset + 1000))));
        [rewrite IH; [done|]|done|].
      - change (Z.of_nat (length (allAssets ++ replicate 500 (JS.Obj []))) ≤ offset + 500).
        rewrite length_app, length_replicate. lia.
      - intros [Hshort|(t & Ht & Hle)].
        + change (Z.of_nat (length (replicate 500 (JS.Obj []))) < limit) in Hshort.
          rewrite length_replicate in Hshort. unfold limit in Hshort. lia.
        + injection Ht as <-.
          change (offset + 1000
                  ≤ Z.of_nat (length (allAssets ++ replicate 500 (JS.Obj [])))) in Hle.
          rewrite length_app, length_replicate in Hle. lia. }
    intros [fuel [x Hx]]. rewrite H in Hx; [done|simpl; lia].
Qed.

(** No total is reported, and the third page is short: the loop
    returns after three requests. *)
Lemma fetch_pages_terminates_witness :
  ends_loop Sample.short_tail [] 0 2 ∧
  ∃ r sent,
    (length sent ≤ 3)%nat ∧
    ∀ fuel, (2 < fuel)%nat → fetch_pages fuel Sample.short_tail [] 0 = Some (r, sent).
Proof.
  assert (ends_loop Sample.short_tail [] 0 2) as H.
  { left. vm_compute. reflexivity. }
  split; [exact H|].
  exact (proj1 (fetch_pages_terminates Sample.short_tail) 2%nat H).
Defined.

Example fetch_short_tail :
  ∃ allAssets,
    fetch_pages 3 Sample.short_tail [] 0
    = Some (Done allAssets,
            [GetHardwarePage 500 0; GetHardwarePage 500 500; GetHardwarePage 500 1000]) ∧
    length allAssets = 1200%nat.
Proof. eexists. split; [vm_compute; reflexivity|]. vm_compute. reflexivity. Qed.

(** The two pages are fetched with two requests and give 600 rows. *)
Example fetch_two_pages :
  ∃ allAssets,
    fetch_pages 2 Sample.two_pages [] 0
    = Some (Done allAssets, [GetHardwarePage 500 0; GetHardwarePage 500 500]) ∧
    length allAssets = 600%nat.
Proof. eexists. split; [vm_compute; reflexivity|]. vm_compute. reflexivity. Qed.

Lemma snapshot_cache_get_witness :
  let c := mk_cache (Some Sample.snapshot0) (Some 1000) in
  let w := Sample.world 6000 Sample.two_pages in
  let get := get_assets Sample.password Sample.admin Sample.token None 2 w c in
  wrong_password Sample.password Sample.admin = false ∧
  present Sample.token = true ∧
  get = Some (Json (SnapshotReply.mk Sample.snapshot0 true 5), c, []) ∧
  (∀ snapshot t,
     None ≠ Some "true" → data c = Some snapshot → timestamp c = Some t →
     t ≠ 0 → 6000 - t < 600000 →
     get = Some (Json (SnapshotReply.mk snapshot true (round_seconds (6000 - t))), c, []) ∧
     1000 * round_seconds (6000 - t) - 500 ≤ 6000 - t
       < 1000 * round_seconds (6000 - t) + 500) ∧
  (None = Some "true" ∨ data c = None ∨ timestamp c = None ∨ timestamp c = Some 0 ∨
   (∃ t, timestamp c = Some t ∧ 600000 ≤ 6000 - t) →
   (∀ allAssets sent,
      fetch_pages 2 (hardware_page w) [] 0 = Some (Done allAssets, sent) →
      sent ≠ [] ∧
      (∀ snapshot, classify w allAssets = Some snapshot →
         get = Some (Json (SnapshotReply.mk snapshot false 0),
                     mk_cache (Some snapshot) (Some 6000), sent)) ∧
      (classify w allAssets = None →
         get = Some (Error 500 "Failed to fetch assets from Snipe-IT" Engine, c, sent))) ∧
   (∀ st message sent,
      fetch_pages 2 (hardware_page w) [] 0 = Some (Thrown st message, sent) →
      get = Some (Error (status_or_500 st) "Failed to fetch assets from Snipe-IT"
                    (Remote message), c, sent))) ∧
  cache_fresh startup_cache 6000 = None.
Proof.
  intros c w get. split; [reflexivity|]. split; [reflexivity|]. split; [reflexivity|].
  exact (snapshot_cache_get Sample.password Sample.admin Sample.token None 2 w c
           eq_refl eq_refl).
Defined.

(** * Further properties *)

(** ** The table over whole histories *)

Lemma nullish_bound v : JS.nullish (JS.bound v) = JS.nullish v.
Proof. by destruct v. Qed.









(** X2.  Ids are never handed out twice: after any history, with
    deletions or not, a submit that saves gets an id above the sequence
    and above every id that was in the table before the history, and
    that id is free. *)
Theorem submit_id_fresh (ADMIN_PASSWORD : string) (d : db) (ops : list op)
    (apiToken : header) (b : Body.audit) (w : submit_env) (r : AuditReply.t) :
  db_wf d →
  reply (submit_audit apiToken b w (run ADMIN_PASSWORD ops d)) = Json r →
  seq d < AuditReply.id r ∧
  (∀ k, is_Some (audits d !! k) → k < AuditReply.id r) ∧
  audits (run ADMIN_PASSWORD ops d) !! AuditReply.id r = None.
Proof.
  intros Hwf Hr. apply submit_audit_Json in Hr as (_ & -> & _). simpl.
  destruct (run_evolves ADMIN_PASSWORD ops d) as [Hseq _].
  destruct (run_wf ADMIN_PASSWORD ops d Hwf) as [_ Hrun].
  split_and!.
  - lia.
  - intros k [row Hk]. destruct Hwf as [_ Hd]. apply Hd in Hk. lia.
  - destruct (audits (run ADMIN_PASSWORD ops d) !! (seq (run ADMIN_PASSWORD ops d) + 1))
      as [row|] eqn:E; [|done].
    apply Hrun in E. lia.
Qed.

(** ** What a batch resolve touches *)

Lemma resolve_loop_other by_ w ids k : ∀ i p,
  k ∉ ids →
  audits (table (resolve_loop by_ w i ids p)) !! k = audits (table p) !! k.
Proof.
  induction ids as [|a ids IH]; intros i p Hk; simpl; [done|].
  apply not_elem_of_cons in Hk as [Hka Hk]. rewrite IH by done.
  destruct (resolve_one_table by_ (w i) a p) as [->|(r & _ & _ & _ & _ & _ & _ & ->)];
    [done|].
  simpl. by rewrite lookup_alter_ne.
Qed.

(** The table a batch leaves is the table of its loop, over the ids it
    was given or over none. *)
Lemma resolve_audits_store pw adm tok audit_ids by_ w d :
  ∃ ids, store (resolve_audits pw adm tok audit_ids by_ w d)
         = table (resolve_loop by_ w 0 ids (start d)) ∧
         calls (resolve_audits pw adm tok audit_ids by_ w d)
         = sent (resolve_loop by_ w 0 ids (start d)) ∧
         (ids = [] ∨ audit_ids = Body.IdsArray ids).
Proof.
  unfold resolve_audits. destruct (wrong_password _ _); [exists []; auto|].
  destruct (negb (present tok)); [exists []; auto|].
  destruct audit_ids as [| |[|a ids]]; try (exists []; by auto).
  exists (a :: ids). auto.
Qed.

(** X3.  A batch resolve, authorized or not, never adds or removes a
    row and never moves the id sequence; it leaves as they are every row
    whose id is not in the batch and every row that is no 'mismatch';
    and a row it changes was a 'mismatch' and is now that row marked
    resolved. *)
Theorem resolve_scope (ADMIN_PASSWORD : string) (adminPassword apiToken : header)
    (audit_ids : Body.audit_ids) (resolved_by : JS.value) (w : nat → step_env) (d : db) :
  let res := resolve_audits ADMIN_PASSWORD adminPassword apiToken audit_ids resolved_by w d in
  seq (store res) = seq d ∧
  (∀ k, is_Some (audits (store res) !! k) ↔ is_Some (audits d !! k)) ∧
  (∀ k r, audits d !! k = Some r → Row.status r ≠ "mismatch" →
          audits (store res) !! k = Some r) ∧
  (∀ ids k, audit_ids = Body.IdsArray ids → k ∉ ids →
            audits (store res) !! k = audits d !! k) ∧
  (∀ k r r', audits d !! k = Some r → audits (store res) !! k = Some r' → r' ≠ r →
             Row.status r = "mismatch" ∧ Row.status r' = "resolved" ∧
             ∃ at_ by_, r' = mark_resolved at_ by_ r).
Proof.
  intros res. subst res.
  destruct (resolve_audits_store ADMIN_PASSWORD adminPassword apiToken audit_ids
              resolved_by w d) as (ids0 & -> & _ & Hids).
  assert (∀ k, match audits d !! k with
               | Some r => ∃ r', audits (table (resolve_loop resolved_by w 0 ids0 (start d)))
                                   !! k = Some r' ∧ row_evolves r r'
               | None => audits (table (resolve_loop resolved_by w 0 ids0 (start d))) !! k
                         = None
               end) as Hrow
    by (intros k; apply (resolve_loop_row resolved_by w ids0 k 0%nat (start d))).
  split_and!.
  - apply (resolve_loop_seq resolved_by w ids0 0%nat (start d)).
  - intros k. specialize (Hrow k). destruct (audits d !! k) as [r|].
    + destruct Hrow as (r' & -> & _). split; eauto.
    + rewrite Hrow. done.
  - intros k r Hk Hs. specialize (Hrow k). rewrite Hk in Hrow.
    destruct Hrow as (r' & -> & Hev). f_equal. by eapply row_evolves_resolved.
  - intros ids k -> Hk. destruct Hids as [->|[= <-]]; [done|].
    apply (resolve_loop_other resolved_by w ids k 0%nat (start d) Hk).
  - intros k r r' Hk Hk' Hne. specialize (Hrow k). rewrite Hk in Hrow.
    destruct Hrow as (r2 & E & Hev). rewrite E in Hk'. injection Hk' as ->.
    destruct Hev as [->|(Hm & at_ & by_ & ->)]; [done|]. eauto.
Qed.

(** What one turn sends: nothing, or the patch of its row, an
    unresolved mismatch. *)
Lemma resolve_one_sent by_ w a p :
  sent (resolve_one by_ w a p) = sent p ∨
  ∃ r, audits (table p) !! a = Some r ∧ Row.status r = "mismatch" ∧
       JS.truthy (Row.resolved_at r) = false ∧
       sent (resolve_one by_ w a p)
       = sent p ++ [PatchHardware (Row.asset_id r) (Row.actual_location_id r)].
Proof.
  unfold resolve_one, db_get.
  destruct (select_fault w); [by left|].
  destruct (audits (table p) !! a) as [r|] eqn:Hr; [|by left].
  destruct (String.eqb (Row.status r) "mismatch") eqn:Hs; simpl; [|by left].
  destruct (JS.truthy (Row.resolved_at r)) eqn:Ht; [by left|].
  apply String.eqb_eq in Hs. right. exists r.
  destruct (patch w); [destruct (update_fault w)|]; simpl; auto.
Qed.

Lemma resolve_loop_sent by_ w ids : ∀ i p c,
  c ∈ sent (resolve_loop by_ w i ids p) →
  c ∈ sent p ∨
  ∃ a r, a ∈ ids ∧ audits (table p) !! a = Some r ∧ Row.status r = "mismatch" ∧
         JS.truthy (Row.resolved_at r) = false ∧
         c = PatchHardware (Row.asset_id r) (Row.actual_location_id r).
Proof.
  induction ids as [|a ids IH]; intros i p c Hc; simpl in Hc; [by left|].
  apply IH in Hc as [Hc|(a' & r' & Ha' & E' & Hm' & Ht' & ->)].
  - destruct (resolve_one_sent by_ (w i) a p) as [Heq|(r & E & Hm & Ht & Heq)];
      rewrite Heq in Hc; [by left|].
    apply elem_of_app in Hc as [Hc|Hc]; [by left|].
    apply list_elem_of_singleton in Hc as ->. right. exists a, r.
    split_and!; try done. apply elem_of_cons. by left.
  - right. exists a', r'. split; [apply elem_of_cons; by right|].
    pose proof (resolve_one_row by_ (w i) a p a') as Hrow.
    destruct (audits (table p) !! a') as [r|]; [|congruence].
    destruct Hrow as (r2 & E2 & Hev). rewrite E' in E2. injection E2 as <-.
    destruct Hev as [->|(_ & at_ & b_ & ->)]; [done|]. simpl in Hm'. discriminate.
Qed.

Lemma resolve_loop_counts by_ w ids : ∀ i p,
  (length (results (resolve_loop by_ w i ids p)) + length (sent p)
   ≤ length (sent (resolve_loop by_ w i ids p)) + length (results p))%nat ∧
  (length (sent (resolve_loop by_ w i ids p)) ≤ length (sent p) + length ids)%nat.
Proof.
  induction ids as [|a ids IH]; intros i p; simpl; [lia|].
  destruct (IH (S i) (resolve_one by_ (w i) a p)) as [H1 H2].
  destruct (resolve_one_cases by_ (w i) a p) as [(r & _ & _ & Heq)|(m & extra & Heq)];
    rewrite Heq in H1, H2 |- *; simpl in *; rewrite ?length_app in *; simpl in *.
  - lia.
  - assert (length extra ≤ 1)%nat; [|lia].
    pose proof (resolve_one_sent by_ (w i) a p) as Hs. rewrite Heq in Hs. simpl in Hs.
    destruct Hs as [Hs|(r & _ & _ & _ & Hs)].
    + apply (f_equal length) in Hs. rewrite length_app in Hs. lia.
    + apply app_inv_head in Hs. subst extra. simpl. lia.
Qed.

(** X4.  Every request a batch resolve sends to Snipe-IT is the patch
    of the asset of a row whose id is in the batch and which was an
    unresolved 'mismatch' when the batch began, setting the asset's
    location to the location observed in that audit; and the number of
    requests sent is at least the number of successes and at most the
    size of the batch. *)
Theorem resolve_calls (ADMIN_PASSWORD : string) (adminPassword apiToken : header)
    (audit_ids : Body.audit_ids) (resolved_by : JS.value) (w : nat → step_env) (d : db) :
  let res := resolve_audits ADMIN_PASSWORD adminPassword apiToken audit_ids resolved_by w d in
  (∀ c, c ∈ calls res →
     ∃ ids a r, audit_ids = Body.IdsArray ids ∧ a ∈ ids ∧
       audits d !! a = Some r ∧ Row.status r = "mismatch" ∧
       JS.truthy (Row.resolved_at r) = false ∧
       c = PatchHardware (Row.asset_id r) (Row.actual_location_id r)) ∧
  (∀ r0, reply res = Json r0 →
     (ResolveReply.resolved r0 ≤ length (calls res))%nat ∧
     (length (calls res) ≤ ResolveReply.resolved r0 + ResolveReply.failed r0)%nat).
Proof.
  intros res. subst res. split.
  - intros c Hc.
    destruct (resolve_audits_store ADMIN_PASSWORD adminPassword apiToken audit_ids
                resolved_by w d) as (ids0 & _ & Hcalls & Hids).
    rewrite Hcalls in Hc.
    apply resolve_loop_sent in Hc as [Hc|(a & r & Ha & E & Hm & Ht & ->)];
      [by apply elem_of_nil in Hc|].
    destruct Hids as [-> | ->]; [by apply elem_of_nil in Ha|].
    exists ids0, a, r. done.
  - unfold resolve_audits. destruct (wrong_password _ _); [done|].
    destruct (negb (present apiToken)); [done|].
    destruct audit_ids as [| |[|a ids]]; try done.
    pose proof (resolve_loop_counts resolved_by w (a :: ids) 0%nat (start d)) as [H1 H2].
    destruct (resolve_loop_items resolved_by w (a :: ids) 0%nat (start d))
      as (rs & es & Hr & He & _ & _ & Hperm).
    apply Permutation_length in Hperm. rewrite length_app, length_fmap in Hperm.
    apply (f_equal length) in Hr, He. rewrite length_app in Hr, He.
    change (length (results (start d))) with 0%nat in *.
    change (length (errors (start d))) with 0%nat in *.
    change (length (sent (start d))) with 0%nat in *.
    intros r0 [= <-]. simpl in *. lia.
Qed.


(** X6.  Resolving an id whose row was deleted files 'Audit not found'
    for it, sends nothing to Snipe-IT and leaves the table as the delete
    left it. *)
Theorem resolve_after_delete (ADMIN_PASSWORD : string) (adminPassword apiToken : header)
    (k : Z) (resolved_by : JS.value) (w : nat → step_env) (d : db) :
  wrong_password ADMIN_PASSWORD adminPassword = false →
  present apiToken = true →
  select_fault (w 0%nat) = None →
  let d1 := store (delete_audit ADMIN_PASSWORD adminPassword (Some k) false d) in
  let res := resolve_audits ADMIN_PASSWORD adminPassword apiToken
               (Body.IdsArray [k]) resolved_by w d1 in
  reply res = Json (ResolveReply.mk false 0 1 [] [(k, "Audit not found")]) ∧
  store res = d1 ∧
  calls res = [].
Proof.
  intros Hpw Htok Hs d1 res. subst d1 res. rewrite resolve_audits_Json by done.
  unfold delete_audit. rewrite Hpw. simpl.
  unfold resolve_one, db_get. simpl. rewrite Hs, lookup_delete_eq. done.
Qed.

(** ** Credentials *)

(** X7.  The password that [POST /api/admin/verify] accepts is the one
    the admin routes accept in their header, and no other value; with
    any other header the four admin routes answer 401, leave the table
    and the snapshot cache as they are and send nothing to Snipe-IT. *)
Theorem admin_password_gate (ADMIN_PASSWORD : string) :
  (∀ p, admin_verify ADMIN_PASSWORD (JS.Str p) = Json (Ack.mk true) ↔
        wrong_password ADMIN_PASSWORD (Some p) = false) ∧
  (∀ v, admin_verify ADMIN_PASSWORD v = Json (Ack.mk true) ↔ v = JS.Str ADMIN_PASSWORD) ∧
  (∀ adminPassword, wrong_password ADMIN_PASSWORD adminPassword = true →
     (∀ apiToken audit_ids resolved_by w d,
        resolve_audits ADMIN_PASSWORD adminPassword apiToken audit_ids resolved_by w d
        = mkresult (Error 401 "Admin password required" NoDetails) d []) ∧
     (∀ id fault d,
        delete_audit ADMIN_PASSWORD adminPassword id fault d
        = mkresult (Error 401 "Admin password required" NoDetails) d []) ∧
     (∀ apiToken location_id id w,
        patch_location ADMIN_PASSWORD adminPassword apiToken location_id id w
        = (Error 401 "Admin password required" NoDetails, [])) ∧
     (∀ apiToken refresh fuel w c,
        get_assets ADMIN_PASSWORD adminPassword apiToken refresh fuel w c
        = Some (Error 401 "Admin password required" NoDetails, c, []))).
Proof.
  assert (∀ v, admin_verify ADMIN_PASSWORD v = Json (Ack.mk true) ↔ v = JS.Str ADMIN_PASSWORD)
    as Hverify.
  { intros v. unfold admin_verify. destruct (JS.strict_eq _ _) eqn:E.
    - split; [|done]. intros _. by apply strict_eq_sound.
    - split; [done|]. intros ->. simpl in E. by rewrite String.eqb_refl in E. }
  split_and!; [|done|].
  - intros p. rewrite Hverify. unfold wrong_password. rewrite negb_false_iff.
    rewrite bool_decide_eq_true. split; congruence.
  - intros adminPassword Hpw. unfold resolve_audits, delete_audit, patch_location, get_assets.
    rewrite Hpw. done.
Qed.


(** ** Identifier search *)

Lemma find_tag_cons term a rest :
  find_tag term (a :: rest)
  = hit ← tag_is term a; if (hit : bool) then Some (Some a) else find_tag term rest.
Proof.
  simpl. unfold tag_is, member. destruct (JS.nullish a); [done|]. simpl.
  destruct (JS.truthy _); [|done]. by destruct (lower _).
Qed.

Lemma find_sap_cons term a rest :
  find_sap term (a :: rest)
  = hit ← sap_is term a; if (hit : bool) then Some (Some a) else find_sap term rest.
Proof.
  simpl. unfold sap_is, member. destruct (JS.nullish a); [done|]. simpl.
  destruct (JS.truthy _); [|done]. destruct (value_is _ _) as [[|]|]; try done.
Qed.

(** Both scans return the first asset that passes their test. *)
Lemma find_tag_first term assets a :
  find_tag term assets = Some (Some a) ↔
  ∃ pre post, assets = pre ++ a :: post ∧
              (∀ x, x ∈ pre → tag_is term x = Some false) ∧ tag_is term a = Some true.
Proof.
  induction assets as [|x rest IH].
  - split; [done|]. intros (pre & post & H & _). by destruct pre.
  - rewrite find_tag_cons. destruct (tag_is term x) as [[|]|] eqn:Ex; simpl.
    + split.
      * intros [= <-]. exists [], rest. split_and!; [done| |done].
        intros ? Hin. by apply elem_of_nil in Hin.
      * intros ([|y pre] & post & H & Hpre & Ha); simpl in H; injection H as -> ->; [done|].
        rewrite Hpre in Ex; [done|]. apply elem_of_cons. by left.
    + rewrite IH. split.
      * intros (pre & post & -> & Hpre & Ha). exists (x :: pre), post.
        split_and!; [done| |done]. intros y [->|Hy]%elem_of_cons; auto.
      * intros ([|y pre] & post & H & Hpre & Ha); simpl in H; injection H as -> ->;
          [congruence|].
        exists pre, post. split_and!; [done| |done].
        intros z Hz. apply Hpre. apply elem_of_cons. by right.
    + split; [done|].
      intros ([|y pre] & post & H & Hpre & Ha); simpl in H; injection H as -> ->;
        [congruence|].
      rewrite Hpre in Ex; [done|]. apply elem_of_cons. by left.
Qed.

Lemma find_sap_first term assets a :
  find_sap term assets = Some (Some a) ↔
  ∃ pre post, assets = pre ++ a :: post ∧
              (∀ x, x ∈ pre → sap_is term x = Some false) ∧ sap_is term a = Some true.
Proof.
  induction assets as [|x rest IH].
  - split; [done|]. intros (pre & post & H & _). by destruct pre.
  - rewrite find_sap_cons. destruct (sap_is term x) as [[|]|] eqn:Ex; simpl.
    + split.
      * intros [= <-]. exists [], rest. split_and!; [done| |done].
        intros ? Hin. by apply elem_of_nil in Hin.
      * intros ([|y pre] & post & H & Hpre & Ha); simpl in H; injection H as -> ->; [done|].
        rewrite Hpre in Ex; [done|]. apply elem_of_cons. by left.
    + rewrite IH. split.
      * intros (pre & post & -> & Hpre & Ha). exists (x :: pre), post.
        split_and!; [done| |done]. intros y [->|Hy]%elem_of_cons; auto.
      * intros ([|y pre] & post & H & Hpre & Ha); simpl in H; injection H as -> ->;
          [congruence|].
        exists pre, post. split_and!; [done| |done].
        intros z Hz. apply Hpre. apply elem_of_cons. by right.
    + split; [done|].
      intros ([|y pre] & post & H & Hpre & Ha); simpl in H; injection H as -> ->;
        [congruence|].
      rewrite Hpre in Ex; [done|]. apply elem_of_cons. by left.
Qed.

(** A tag passes the test when it is a text equal to the term up to the
    case of letters. *)
Lemma tag_is_true term a :
  tag_is term a = Some true ↔
  ∃ s, JS.prop a "asset_tag" = JS.Str s ∧ s ≠ "" ∧ toLowerCase s = toLowerCase term ∧
       JS.nullish a = false.
Proof.
  unfold tag_is, member. destruct (JS.nullish a); simpl.
  - split; [done|]. by intros (? & _ & _ & _ & ?).
  - destruct (JS.prop a "asset_tag") as [| | | |s| |] eqn:E; simpl;
      try (split; [by (discriminate || destruct b || destruct (negb _))
                  |by intros (? & ? & _)]).
    destruct (String.eqb s "") eqn:Es; simpl.
    + split; [done|]. intros (s' & [= <-] & Hne & _). by apply String.eqb_eq in Es.
    + split.
      * intros [= H]. apply String.eqb_eq in H. apply String.eqb_neq in Es. eauto.
      * intros (s' & [= <-] & _ & H & _). rewrite H. by rewrite String.eqb_refl.
Qed.

Lemma search_rows_found term data a :
  search_rows term data = Some (Some a) →
  ∃ items, JS.prop data "rows" = JS.Arr items ∧
    (find_tag term items = Some (Some a) ∨
     (find_tag term items = Some None ∧ find_sap term items = Some (Some a))).
Proof.
  unfold search_rows, member. destruct (JS.nullish data); [done|]. simpl.
  destruct (JS.prop data "rows") as [| | | | | |items] eqn:E; simpl; try done.
  - destruct b; done.
  - destruct (negb _); done.
  - destruct (negb _); done.
  - destruct (find_tag term items) as [[x|]|] eqn:Et; simpl; [| |done].
    + intros [= <-]. eauto.
    + intros Hs. eauto.
Qed.

(** X9.  An asset that the identifier search returns is never made up.
    Found at the first request, it is what Snipe-IT answered to the
    lookup by tag, and it has an id.  Found at the second, it is one of
    the rows Snipe-IT answered to the text search, and either its tag is
    the term up to the case of letters, or one of its SAP fields has
    the term as value: in both cases no row before it passes that test.
    The term sent is the trimmed query, and is not empty. *)
Theorem search_found (apiToken : header) (query : option string) (w : search_env)
    (asset : JS.value) (requests : list call) :
  search_assets apiToken query w = (Json asset, requests) →
  ∃ q, query = Some q ∧ trim q ≠ "" ∧
    ((requests = [GetByTag (trim q)] ∧ by_tag w = Done asset ∧
      JS.truthy (JS.prop asset "id") = true) ∨
     (requests = [GetByTag (trim q); SearchHardware (trim q) 50] ∧
      ∃ data pre post,
        by_search w = Done data ∧ JS.prop data "rows" = JS.Arr (pre ++ asset :: post) ∧
        ((tag_is (trim q) asset = Some true ∧
          (∃ s, JS.prop asset "asset_tag" = JS.Str s ∧
                toLowerCase s = toLowerCase (trim q)) ∧
          ∀ x, x ∈ pre → tag_is (trim q) x = Some false) ∨
         (sap_is (trim q) asset = Some true ∧
          ∀ x, x ∈ pre → sap_is (trim q) x = Some false)))).
Proof.
  unfold search_assets. destruct (negb (present apiToken)); [done|].
  destruct (query_missing query) eqn:Hq; [done|].
  destruct query as [q|]; [|done]. simpl in Hq.
  apply orb_false_iff in Hq as [_ Hq]. apply String.eqb_neq in Hq.
  simpl. intros H. exists q. split; [done|]. split; [done|].
  assert (match by_search w with
          | Thrown st message =>
              (Error (status_or_500 st) "Failed to search asset" (Remote message),
               [GetByTag (trim q); SearchHardware (trim q) 50])
          | Done data =>
              match search_rows (trim q) data with
              | None => (Error 500 "Failed to search asset" Engine,
                         [GetByTag (trim q); SearchHardware (trim q) 50])
              | Some (Some asset) => (Json asset, [GetByTag (trim q); SearchHardware (trim q) 50])
              | Some None =>
                  (Error 404 "Asset not found. Please check the asset tag or SAP number."
                     NoDetails, [GetByTag (trim q); SearchHardware (trim q) 50])
              end
          end = (Json asset, requests) →
          requests = [GetByTag (trim q); SearchHardware (trim q) 50] ∧
          ∃ data pre post,
            by_search w = Done data ∧ JS.prop data "rows" = JS.Arr (pre ++ asset :: post) ∧
            ((tag_is (trim q) asset = Some true ∧
              (∃ s, JS.prop asset "asset_tag" = JS.Str s ∧
                    toLowerCase s = toLowerCase (trim q)) ∧
              ∀ x, x ∈ pre → tag_is (trim q) x = Some false) ∨
             (sap_is (trim q) asset = Some true ∧
              ∀ x, x ∈ pre → sap_is (trim q) x = Some false))) as Hsecond.
  { destruct (by_search w) as [data|]; [|done].
    destruct (search_rows (trim q) data) as [[x|]|] eqn:Es; try done.
    intros [= <- <-]. split; [done|].
    apply search_rows_found in Es as (items & Hrows & [Ht|[_ Hs]]).
    - apply find_tag_first in Ht as (pre & post & -> & Hpre & Ha).
      exists data, pre, post. split_and!; [done|done|]. left. split_and!; [done| |done].
      apply tag_is_true in Ha as (s & ? & _ & ? & _). eauto.
    - apply find_sap_first in Hs as (pre & post & -> & Hpre & Ha).
      exists data, pre, post. split_and!; [done|done|]. right. done. }
  destruct (by_tag w) as [data|]; [|right; by apply Hsecond].
  destruct (JS.truthy data && JS.truthy (JS.prop data "id")) eqn:Eid;
    [|right; by apply Hsecond].
  injection H as <- <-. left. apply andb_true_iff in Eid as [_ Eid]. done.
Qed.

Lemma search_rows_items term data items :
  JS.nullish data = false → JS.prop data "rows" = JS.Arr items →
  search_rows term data
  = match find_tag term items with
    | Some (Some a) => Some (Some a)
    | Some None => find_sap term items
    | None => None
    end.
Proof.
  intros Hd Hrows. unfold search_rows, member. rewrite Hd. simpl. rewrite Hrows. simpl.
  by destruct (find_tag term items) as [[a|]|].
Qed.

Lemma find_tag_none term assets :
  (∀ x, x ∈ assets → tag_is term x = Some false) → find_tag term assets = Some None.
Proof.
  induction assets as [|x rest IH]; intros H; [done|].
  rewrite find_tag_cons, H by (apply elem_of_cons; by left). simpl.
  apply IH. intros y Hy. apply H. apply elem_of_cons. by right.
Qed.

Lemma trim_empty : trim "" = "".
Proof. reflexivity. Qed.

(** X10.  When the lookup by tag gives nothing, the search phase
    answers with the first row whose tag is the term up to the case of
    letters, whatever the SAP fields of the rows before it; and when no
    row has such a tag, with the first row one of whose SAP fields has
    the term as value. *)
Theorem search_first_hit (apiToken : header) (q : string) (w : search_env)
    (data : JS.value) (pre post : list JS.value) (a : JS.value) :
  present apiToken = true →
  trim q ≠ "" →
  (∀ found, by_tag w = Done found →
            JS.truthy found && JS.truthy (JS.prop found "id") = false) →
  by_search w = Done data →
  JS.nullish data = false →
  JS.prop data "rows" = JS.Arr (pre ++ a :: post) →
  let both := [GetByTag (trim q); SearchHardware (trim q) 50] in
  ((∀ x, x ∈ pre → tag_is (trim q) x = Some false) →
   tag_is (trim q) a = Some true →
   search_assets apiToken (Some q) w = (Json a, both)) ∧
  ((∀ x, x ∈ pre ++ a :: post → tag_is (trim q) x = Some false) →
   (∀ x, x ∈ pre → sap_is (trim q) x = Some false) →
   sap_is (trim q) a = Some true →
   search_assets apiToken (Some q) w = (Json a, both)).
Proof.
  intros Htok Hq Htag Hsearch Hd Hrows both. subst both.
  assert (query_missing (Some q) = false) as Hm.
  { simpl. apply orb_false_iff. split; apply String.eqb_neq; [|done].
    intros ->. by rewrite trim_empty in Hq. }
  assert (∀ r, search_rows (trim q) data = Some (Some r) →
               search_assets apiToken (Some q) w
               = (Json r, [GetByTag (trim q); SearchHardware (trim q) 50])) as Hfound.
  { intros r Hr. unfold search_assets. rewrite Htok, Hm. simpl.
    rewrite Hsearch, Hr.
    destruct (by_tag w) as [found|]; [|done]. by rewrite (Htag found). }
  split.
  - intros Hpre Ha. apply Hfound.
    rewrite (search_rows_items _ _ _ Hd Hrows).
    assert (find_tag (trim q) (pre ++ a :: post) = Some (Some a)) as ->; [|done].
    apply find_tag_first. eauto.
  - intros Hall Hpre Ha. apply Hfound.
    rewrite (search_rows_items _ _ _ Hd Hrows), find_tag_none by done.
    apply find_sap_first. eauto.
Qed.

(** X11.  The error replies of the identifier search.  Without a
    request to Snipe-IT: 401 for a missing token and 400 for a missing
    term.  Otherwise both requests were sent and the error comes from
    the second: the status Snipe-IT gave to the text search (500 when it
    gave none), 404 when no row passed either test, or 500 for rows that
    cannot be read.  A failure of the lookup by tag is never reported:
    the handler goes on as if the lookup had found nothing. *)
Theorem search_errors :
  (∀ apiToken query w code error det requests,
     search_assets apiToken query w = (Error code error det, requests) →
     (requests = [] ∧
      ((code = 401 ∧ present apiToken = false) ∨
       (code = 400 ∧ query_missing query = true))) ∨
     (∃ q, query = Some q ∧
        requests = [GetByTag (trim q); SearchHardware (trim q) 50] ∧
        ((∃ st message, by_search w = Thrown st message ∧
                        code = status_or_500 st ∧ det = Remote message) ∨
         (∃ data, by_search w = Done data ∧ search_rows (trim q) data = Some None ∧
                  code = 404 ∧ det = NoDetails) ∨
         (∃ data, by_search w = Done data ∧ search_rows (trim q) data = None ∧
                  code = 500 ∧ det = Engine)))) ∧
  (∀ apiToken query st message answer,
     search_assets apiToken query (mk_search_env (Thrown st message) answer)
     = search_assets apiToken query (mk_search_env (Done JS.Null) answer)).
Proof.
  split; [|done].
  intros apiToken query w code error det requests. unfold search_assets.
  destruct (present apiToken); simpl; [|intros [= <- <- <- <-]; left; auto].
  destruct (query_missing query) eqn:Hq; [intros [= <- <- <- <-]; left; auto|].
  destruct query as [q|]; [|done]. simpl.
  intros H. right. exists q. split; [done|].
  assert (match by_search w with
          | Thrown st message =>
              (Error (status_or_500 st) "Failed to search asset" (Remote message),
               [GetByTag (trim q); SearchHardware (trim q) 50])
          | Done data =>
              match search_rows (trim q) data with
              | None => (Error 500 "Failed to search asset" Engine,
                         [GetByTag (trim q); SearchHardware (trim q) 50])
              | Some (Some asset) => (Json asset, [GetByTag (trim q); SearchHardware (trim q) 50])
              | Some None =>
                  (Error 404 "Asset not found. Please check the asset tag or SAP number."
                     NoDetails, [GetByTag (trim q); SearchHardware (trim q) 50])
              end
          end = (Error code error det, requests)) as H2.
  { destruct (by_tag w) as [found|]; [|done].
    by destruct (JS.truthy found && JS.truthy (JS.prop found "id")). }
  clear H. destruct (by_search w) as [data|st message].
  - destruct (search_rows (trim q) data) as [[x|]|] eqn:Es; [done| |];
      injection H2 as <- <- <- <-; (split; [done|]); eauto 10.
  - injection H2 as <- <- <- <-. split; [done|]. eauto 10.
Qed.

(** ** Trimming the search term *)

Lemma append_cons c s1 s2 : String c s1 +:+ s2 = String c (s1 +:+ s2).
Proof. reflexivity. Qed.

Lemma append_nil_r s : s +:+ "" = s.
Proof. induction s as [|c s IH]; [done|]. by rewrite append_cons, IH. Qed.

Lemma append_assoc s1 s2 s3 : (s1 +:+ s2) +:+ s3 = s1 +:+ (s2 +:+ s3).
Proof. induction s1 as [|c s1 IH]; [done|]. by rewrite !append_cons, IH. Qed.

Lemma rev_app_append s1 : ∀ s2, String.rev_app s1 s2 = String.rev s1 +:+ s2.
Proof.
  unfold String.rev. induction s1 as [|c s1 IH]; intros s2; [done|].
  simpl. rewrite (IH (String c s2)), (IH (String c "")), append_assoc. done.
Qed.

Lemma rev_cons c s : String.rev (String c s) = String.rev s +:+ String c "".
Proof. unfold String.rev at 1. simpl. apply rev_app_append. Qed.

Lemma rev_append s1 s2 : String.rev (s1 +:+ s2) = String.rev s2 +:+ String.rev s1.
Proof.
  induction s1 as [|c s1 IH]; [by rewrite append_nil_r|].
  by rewrite append_cons, !rev_cons, IH, append_assoc.
Qed.

Lemma rev_involutive s : String.rev (String.rev s) = s.
Proof.
  induction s as [|c s IH]; [done|]. by rewrite rev_cons, rev_append, IH.
Qed.

Lemma all_space_append s1 s2 : all_space (s1 +:+ s2) = all_space s1 && all_space s2.
Proof.
  induction s1 as [|c s1 IH]; [done|]. rewrite append_cons. simpl.
  by rewrite IH, andb_assoc.
Qed.

Lemma all_space_rev s : all_space (String.rev s) = all_space s.
Proof.
  induction s as [|c s IH]; [done|]. rewrite rev_cons, all_space_append, IH. simpl.
  rewrite andb_true_r. apply andb_comm.
Qed.

Lemma trimStart_clean s : starts_clean (trimStart s) = true.
Proof.
  induction s as [|c s IH]; [done|]. simpl.
  destruct (white_space c) eqn:E; [done|]. simpl. by rewrite E.
Qed.

Lemma trimStart_split s : ∃ pre, s = pre +:+ trimStart s ∧ all_space pre = true.
Proof.
  induction s as [|c s (pre & IH & Hpre)]; [by exists ""|]. simpl.
  destruct (white_space c) eqn:E.
  - exists (String c pre). rewrite append_cons, <-IH. simpl. by rewrite E.
  - by exists "".
Qed.

Lemma trimStart_id s : starts_clean s = true → trimStart s = s.
Proof. destruct s as [|c s]; [done|]. simpl. by destruct (white_space c). Qed.

Lemma starts_clean_append s1 s2 : starts_clean (s1 +:+ s2) = true → starts_clean s1 = true.
Proof. by destruct s1. Qed.

Lemma starts_clean_all_space s : starts_clean s = true → all_space s = true → s = "".
Proof. destruct s as [|c s]; [done|]. simpl. by destruct (white_space c). Qed.

(** X12.  The term the search sends is the query without the white
    space around it: the query is some white space, the term, some white
    space; the term neither begins nor ends with white space; trimming
    it again changes nothing; and a query is refused as missing exactly
    when it is made of white space only.  White space is, among the
    code units below 256: tab, line feed, vertical tab, form feed,
    carriage return, space and the no-break space. *)
Theorem trim_spec (q : string) :
  (∃ pre post, q = pre +:+ trim q +:+ post ∧ all_space pre = true ∧ all_space post = true) ∧
  starts_clean (trim q) = true ∧
  starts_clean (String.rev (trim q)) = true ∧
  trim (trim q) = trim q ∧
  query_missing (Some q) = all_space q ∧
  (∀ c, white_space c = true
        ↔ (9 ≤ nat_of_ascii c ≤ 13)%nat ∨ nat_of_ascii c = 32%nat ∨ nat_of_ascii c = 160%nat).
Proof.
  assert (∀ c, white_space c = true
               ↔ (9 ≤ nat_of_ascii c ≤ 13)%nat ∨ nat_of_ascii c = 32%nat ∨
                 nat_of_ascii c = 160%nat) as Hwhite.
  { intros c. unfold white_space.
    rewrite !orb_true_iff, andb_true_iff, !Nat.leb_le, !Nat.eqb_eq. tauto. }
  destruct (trimStart_split q) as (pre & Hq & Hpre).
  destruct (trimStart_split (String.rev (trimStart q))) as (pre2 & Ht & Hpre2).
  assert (trimStart q = trim q +:+ String.rev pre2) as Ht'.
  { rewrite <-(rev_involutive (trimStart q)), Ht, rev_append. done. }
  assert (starts_clean (trim q) = true) as Hstart.
  { apply (starts_clean_append _ (String.rev pre2)). rewrite <-Ht'. apply trimStart_clean. }
  assert (starts_clean (String.rev (trim q)) = true) as Hend.
  { unfold trim. rewrite rev_involutive. apply trimStart_clean. }
  assert (∃ pre post, q = pre +:+ trim q +:+ post ∧ all_space pre = true ∧
                      all_space post = true) as Hsplit.
  { exists pre, (String.rev pre2). rewrite <-Ht'. split_and!; [done|done|].
    by rewrite all_space_rev. }
  split_and!; [done|done|done| | |done].
  - unfold trim at 1. rewrite (trimStart_id (trim q)) by done.
    rewrite (trimStart_id (String.rev (trim q))) by done. apply rev_involutive.
  - destruct Hsplit as (p1 & p2 & Heq & H1 & H2).
    assert (all_space q = all_space (trim q)) as Hall.
    { rewrite Heq at 1. rewrite !all_space_append, H1, H2. simpl. apply andb_true_r. }
    simpl. rewrite Hall. destruct (String.eqb_spec (trim q) "") as [E|E].
    + rewrite E. simpl. apply orb_true_r.
    + destruct (String.eqb_spec q "") as [->|_]; [done|]. simpl.
      destruct (all_space (trim q)) eqn:Ea; [|done].
      by apply starts_clean_all_space in Ea.
Qed.

(** The no-break space is white space: a query made of it is missing,
    and it is trimmed from both ends of a term; lowering moves the
    accented capitals of Latin-1, and leaves the multiplication sign
    (215) and the sharp s (223) alone. *)
Example latin1_strings :
  query_missing (Some Scenario.nbsp) = true ∧
  trim Scenario.padded = "LAPTOP-001" ∧
  toLowerCase (String "201"%char "CRAN-1") = Scenario.ecran ∧
  toLowerCase (String "215"%char (String "223"%char "Z")) =
  String "215"%char (String "223"%char "z").
Proof. vm_compute. split_and!; reflexivity. Qed.

(** The search for 'écran-1' answers the first row, tagged 'ÉCRAN-1'. *)
Example search_accented_capitals :
  search_assets Sample.token (Some Scenario.ecran) Scenario.ecran_world
  = (Json Scenario.ecran_capitals,
     [GetByTag Scenario.ecran; SearchHardware Scenario.ecran 50]).
Proof. vm_compute. reflexivity. Qed.

(** ** The classified snapshot *)

(** What [process_asset] makes of one asset. *)
Lemma process_asset_flags w i asset a :
  process_asset w i asset = Some a →
  let last := JS.prop asset "last_audit_date" in
  let next := JS.prop asset "next_audit_date" in
  JS.nullish asset = false ∧
  Asset.id a = JS.prop asset "id" ∧
  Asset.asset_tag a = JS.prop asset "asset_tag" ∧
  Asset.last_audit_date a = extractDate last ∧
  Asset.next_audit_date a = extractDate next ∧
  Asset.never_audited a = negb (JS.truthy last) ∧
  Asset.not_audited_this_year a
  = match parseDate (date_time w) last with
    | Some t => t <? currentYearStart w
    | None => true
    end ∧
  Asset.audit_overdue a
  = match parseDate (date_time w) next with
    | Some t => t <? date_clock w i
    | None => false
    end ∧
  sapAssetNumber (JS.prop asset "custom_fields") = Some (Asset.sap_asset_number a) ∧
  Asset.model a = name_or_null (JS.prop asset "model") "name" ∧
  Asset.category a = name_or_null (JS.prop asset "category") "name" ∧
  Asset.location a = name_or_null (JS.prop asset "location") "name" ∧
  Asset.location_id a = name_or_null (JS.prop asset "location") "id" ∧
  Asset.assigned_to a = name_or_null (JS.prop asset "assigned_to") "name" ∧
  Asset.status a = name_or_null (JS.prop asset "status_label") "name".
Proof.
  unfold process_asset, member. destruct (JS.nullish asset); simpl; [done|].
  destruct (sapAssetNumber _); simpl; [|done]. intros [= <-]. simpl. split_and!; done.
Qed.

(** Each processed entry comes from the raw asset at its index. *)
Lemma process_assets_entry w allAssets processed i a :
  process_assets w 0 allAssets = Some processed →
  processed !! i = Some a →
  ∃ asset, allAssets !! i = Some asset ∧ process_asset w i asset = Some a.
Proof.
  intros Hp Ha.
  assert (is_Some (allAssets !! i)) as [asset Hasset].
  { apply lookup_lt_is_Some. rewrite <-(process_assets_length w allAssets 0%nat processed Hp).
    by eapply lookup_lt_Some. }
  destruct (process_assets_lookup w allAssets 0%nat processed i asset Hp Hasset)
    as (a' & Ea' & Hpa).
  rewrite Ha in Ea'. injection Ea' as <-. eauto.
Qed.

Lemma classify_Some w allAssets snapshot :
  classify w allAssets = Some snapshot →
  ∃ processed, process_assets w 0 allAssets = Some processed ∧
    snapshot = Snapshot.mk (length allAssets)
      (filter (λ a, Asset.never_audited a = true) processed)
      (filter (λ a, negb (Asset.never_audited a) && Asset.not_audited_this_year a = true)
              processed)
      (filter (λ a, Asset.audit_overdue a = true) processed)
      processed.
Proof.
  unfold classify. destruct (process_assets w 0 allAssets) as [processed|]; simpl; [|done].
  intros [= <-]. eauto.
Qed.

(** X13.  In every snapshot, an asset is flagged overdue exactly when
    its next audit date parses and lies strictly before the clock read
    for that asset: an asset without a next audit date, or with one that
    does not parse, is never overdue, and one due at this very
    millisecond is not yet overdue.  The overdue bucket holds the
    flagged entries and no others. *)
Theorem overdue_bucket (w : snapshot_env) (allAssets : list JS.value)
    (snapshot : Snapshot.t) :
  classify w allAssets = Some snapshot →
  (∀ i asset, allAssets !! i = Some asset →
     ∃ a, Snapshot.all_assets snapshot !! i = Some a ∧
          Asset.audit_overdue a
          = match parseDate (date_time w) (JS.prop asset "next_audit_date") with
            | Some t => bool_decide (t < date_clock w i)
            | None => false
            end ∧
          (JS.truthy (JS.prop asset "next_audit_date") = false →
           Asset.audit_overdue a = false ∧ a ∉ Snapshot.audit_overdue snapshot)) ∧
  (∀ a, a ∈ Snapshot.audit_overdue snapshot ↔
        a ∈ Snapshot.all_assets snapshot ∧ Asset.audit_overdue a = true).
Proof.
  intros H. apply classify_Some in H as (processed & Hp & ->). simpl.
  assert (∀ a, a ∈ filter (λ a, Asset.audit_overdue a = true) processed ↔
               a ∈ processed ∧ Asset.audit_overdue a = true) as Hbucket
    by (intros a; rewrite list_elem_of_filter; tauto).
  split; [|done].
  intros i asset Hi.
  destruct (process_assets_lookup w allAssets 0%nat processed i asset Hp Hi) as (a & Ea & Hpa).
  apply process_asset_flags in Hpa as (_ & _ & _ & _ & _ & _ & _ & Hover & _). simpl in *.
  exists a. split_and!; [done| |].
  - rewrite Hover. destruct (parseDate _ _) as [t|]; [|done].
    destruct (Z.ltb_spec t (date_clock w i)); [by rewrite bool_decide_eq_true_2
                                                |by rewrite bool_decide_eq_false_2 by lia].
  - intros Hfalsy.
    assert (Asset.audit_overdue a = false) as Hf.
    { rewrite Hover. unfold parseDate. by rewrite extractDate_falsy. }
    split; [done|]. rewrite Hbucket. intros [_ Ht]. congruence.
Qed.

Lemma filter_split {A} (P Q : A → bool) (l : list A) :
  (∀ x, x ∈ l → P x = true → Q x = true) →
  filter (λ x, P x = true) l ++ filter (λ x, negb (P x) && Q x = true) l
  ≡ₚ filter (λ x, Q x = true) l.
Proof.
  induction l as [|x l IH]; intros H; [done|].
  assert (filter (λ x, P x = true) l ++ filter (λ x, negb (P x) && Q x = true) l
          ≡ₚ filter (λ x, Q x = true) l) as IH'.
  { apply IH. intros y Hy. apply H. apply elem_of_cons. by right. }
  rewrite !filter_cons.
  destruct (P x) eqn:EP; simpl.
  - rewrite (H x) by (done || (apply elem_of_cons; by left)).
    repeat case_decide; try done. simpl. by f_equiv.
  - destruct (Q x) eqn:EQ; repeat case_decide; try done.
    rewrite <-Permutation_middle. by f_equiv.
Qed.

(** X14.  In every snapshot, an asset flagged never-audited is also
    flagged not-audited-this-year; the never-audited bucket and the
    not-audited-this-year bucket together hold, once each, exactly the
    entries flagged not-audited-this-year; each of the three buckets
    lists its entries in the order of the full list; and the full list
    has one entry per fetched asset, in the order fetched, with the
    asset's id and tag. *)
Theorem snapshot_buckets (w : snapshot_env) (allAssets : list JS.value)
    (snapshot : Snapshot.t) :
  classify w allAssets = Some snapshot →
  (∀ a, a ∈ Snapshot.all_assets snapshot → Asset.never_audited a = true →
        Asset.not_audited_this_year a = true) ∧
  Snapshot.never_audited snapshot ++ Snapshot.not_audited_this_year snapshot
  ≡ₚ filter (λ a, Asset.not_audited_this_year a = true) (Snapshot.all_assets snapshot) ∧
  Snapshot.never_audited snapshot `sublist_of` Snapshot.all_assets snapshot ∧
  Snapshot.not_audited_this_year snapshot `sublist_of` Snapshot.all_assets snapshot ∧
  Snapshot.audit_overdue snapshot `sublist_of` Snapshot.all_assets snapshot ∧
  Snapshot.total snapshot = length (Snapshot.all_assets snapshot) ∧
  (∀ i asset, allAssets !! i = Some asset →
     ∃ a, Snapshot.all_assets snapshot !! i = Some a ∧
          Asset.id a = JS.prop asset "id" ∧ Asset.asset_tag a = JS.prop asset "asset_tag").
Proof.
  intros H. apply classify_Some in H as (processed & Hp & ->). simpl.
  assert (∀ a, a ∈ processed → Asset.never_audited a = true →
               Asset.not_audited_this_year a = true) as Himp.
  { intros a [i Hi]%list_elem_of_lookup Hnever.
    destruct (process_assets_entry w allAssets processed i a Hp Hi) as (asset & _ & Hpa).
    apply process_asset_flags in Hpa as (_ & _ & _ & _ & _ & Hn & Hs & _). simpl in *.
    rewrite Hn in Hnever. apply negb_true_iff in Hnever.
    rewrite Hs. unfold parseDate. by rewrite extractDate_falsy. }
  split_and!; [done| |apply sublist_filter; apply _|apply sublist_filter; apply _
              |apply sublist_filter; apply _| |].
  - by apply (filter_split Asset.never_audited Asset.not_audited_this_year).
  - symmetry. by eapply process_assets_length.
  - intros i asset Hi.
    destruct (process_assets_lookup w allAssets 0%nat processed i asset Hp Hi) as (a & Ea & Hpa).
    apply process_asset_flags in Hpa as (_ & Hid & Htag & _). eauto.
Qed.

Lemma or_null_normal v : null_or_truthy (JS.or v JS.Null).
Proof. unfold null_or_truthy, JS.or. destruct (JS.truthy v) eqn:E; auto. Qed.

Lemma extractDate_normal v : null_or_truthy (extractDate v).
Proof.
  unfold null_or_truthy, extractDate.
  destruct (JS.truthy v) eqn:Ev; simpl; [|by left].
  destruct (JS.is_string v); [by right|].
  destruct (JS.is_object v); simpl; [|by left].
  destruct (JS.truthy (JS.prop v "datetime")) eqn:Ed; [by right|].
  destruct (JS.truthy (JS.prop v "formatted")) eqn:Ef; [by right|by left].
Qed.

Lemma sap_first_normal fields v : sap_first fields = Some v → null_or_truthy v.
Proof.
  induction fields as [|[name fd] rest IH]; simpl.
  - intros [= <-]. by left.
  - destruct (sap_named name fd) as [[|]|]; simpl; [|done|done].
    destruct (member fd "value") as [x|]; simpl; [|done].
    intros [= <-]. apply or_null_normal.
Qed.

Lemma sapAssetNumber_normal cf v : sapAssetNumber cf = Some v → null_or_truthy v.
Proof.
  unfold sapAssetNumber. destruct (_ && _); [|intros [= <-]; by left].
  destruct (JS.truthy (sap_field cf)).
  - intros [= <-]. apply or_null_normal.
  - apply sap_first_normal.
Qed.

(** X15.  In every snapshot the optional fields of every entry are
    normalised: model, category, location, location id, assignee,
    status label, SAP number and the two audit dates are each either
    null or a truthy value, never [undefined], an empty text or 0; and
    an entry flagged never-audited has a null last audit date. *)
Theorem snapshot_fields_normalised (w : snapshot_env) (allAssets : list JS.value)
    (snapshot : Snapshot.t) :
  classify w allAssets = Some snapshot →
  ∀ a, a ∈ Snapshot.all_assets snapshot →
    null_or_truthy (Asset.model a) ∧ null_or_truthy (Asset.category a) ∧
    null_or_truthy (Asset.location a) ∧ null_or_truthy (Asset.location_id a) ∧
    null_or_truthy (Asset.assigned_to a) ∧ null_or_truthy (Asset.status a) ∧
    null_or_truthy (Asset.sap_asset_number a) ∧
    null_or_truthy (Asset.last_audit_date a) ∧ null_or_truthy (Asset.next_audit_date a) ∧
    (Asset.never_audited a = true → Asset.last_audit_date a = JS.Null).
Proof.
  intros H a Ha. apply classify_Some in H as (processed & Hp & ->). simpl in Ha.
  apply list_elem_of_lookup in Ha as [i Hi].
  destruct (process_assets_entry w allAssets processed i a Hp Hi) as (asset & _ & Hpa).
  apply process_asset_flags in Hpa
    as (_ & _ & _ & Hl & Hn & Hnever & _ & _ & Hsap & -> & -> & -> & -> & -> & ->).
  simpl in *. rewrite Hl, Hn.
  split_and!; try apply or_null_normal; try apply extractDate_normal.
  - by eapply sapAssetNumber_normal.
  - rewrite Hnever. intros Hf%negb_true_iff. by apply extractDate_falsy.
Qed.

Lemma sap_first_hit pre name fd post :
  (∀ n d, (n, d) ∈ pre → sap_named n d = Some false) →
  sap_named name fd = Some true →
  sap_first (pre ++ (name, fd) :: post)
  = (v ← member fd "value"; Some (JS.or v JS.Null)).
Proof.
  induction pre as [|[n d] pre IH]; intros Hpre Hhit; simpl.
  - by rewrite Hhit.
  - rewrite (Hpre n d) by (apply elem_of_cons; by left). simpl.
    apply IH; [|done]. intros n' d' Hin. apply Hpre. apply elem_of_cons. by right.
Qed.

(** X16.  The SAP number of an asset.  Without custom fields it is
    null.  A field named 'SAP Asset Number / ID', or else one named
    'SAP Asset Number', decides it whatever the other fields hold: the
    number is that field's value, or null when the value is falsy.
    Failing both, the first field whose name or label contains 'sap'
    decides it in the same way, and the fields after it are not looked
    at, even when its value is empty. *)
Theorem sap_number_first_match :
  (∀ cf, JS.truthy cf = false ∨ entries cf = [] → sapAssetNumber cf = Some JS.Null) ∧
  (∀ cf, JS.truthy cf = true → entries cf ≠ [] → JS.truthy (sap_field cf) = true →
         sapAssetNumber cf = Some (JS.or (JS.prop (sap_field cf) "value") JS.Null)) ∧
  (∀ ps, JS.truthy (JS.assoc "SAP Asset Number / ID" ps) = true →
         sap_field (JS.Obj ps) = JS.assoc "SAP Asset Number / ID" ps) ∧
  (∀ ps, JS.truthy (JS.assoc "SAP Asset Number / ID" ps) = false →
         sap_field (JS.Obj ps) = JS.assoc "SAP Asset Number" ps) ∧
  (∀ cf pre name fd post,
     JS.truthy cf = true → entries cf = pre ++ (name, fd) :: post →
     JS.truthy (sap_field cf) = false →
     (∀ n d, (n, d) ∈ pre → sap_named n d = Some false) →
     sap_named name fd = Some true → JS.nullish fd = false →
     sapAssetNumber cf = Some (JS.or (JS.prop fd "value") JS.Null)).
Proof.
  split_and!.
  - intros cf [H|H]; unfold sapAssetNumber; [by rewrite H|].
    rewrite H. simpl. by rewrite andb_false_r.
  - intros cf Ht He Hs. unfold sapAssetNumber. rewrite Ht, Hs.
    destruct (entries cf); [done|]. done.
  - intros ps H. unfold sap_field, JS.or. simpl. by rewrite H.
  - intros ps H. unfold sap_field, JS.or. simpl. by rewrite H.
  - intros cf pre name fd post Ht He Hs Hpre Hhit Hfd. unfold sapAssetNumber.
    rewrite Ht, Hs, He. rewrite sap_first_hit by done.
    rewrite length_app. simpl. unfold member. rewrite Hfd. simpl.
    by destruct (length pre).
Qed.

Lemma process_assets_None w allAssets : ∀ i j asset,
  allAssets !! j = Some asset → process_asset w (i + j) asset = None →
  process_assets w i allAssets = None.
Proof.
  induction allAssets as [|x rest IH]; intros i j asset Hj Hnone; [done|].
  destruct j as [|j]; simpl in *.
  - injection Hj as ->. rewrite Nat.add_0_r in Hnone. by rewrite Hnone.
  - destruct (process_asset w i x); simpl; [|done].
    rewrite (IH (S i) j asset); [done|done|]. by rewrite Nat.add_succ_l, <-Nat.add_succ_r.
Qed.

(** X17.  One asset that cannot be read fails the whole snapshot.  If
    a fetched row is null, or has a custom field whose name contains
    'sap' and whose content is null, or a field whose label is truthy
    but no text, the classification throws; an authorized forced
    refresh then answers 500 although every page was fetched, and the
    cache slot keeps what it held. *)
Theorem unreadable_asset_fails_snapshot (ADMIN_PASSWORD : string)
    (adminPassword apiToken : header) (fuel : nat) (w : snapshot_env) (c : assetCache)
    (allAssets : list JS.value) (requests : list call) (i : nat) (asset : JS.value) :
  wrong_password ADMIN_PASSWORD adminPassword = false →
  present apiToken = true →
  fetch_pages fuel (hardware_page w) [] 0 = Some (Done allAssets, requests) →
  allAssets !! i = Some asset →
  JS.nullish asset = true ∨
  (∃ name rest, JS.prop asset "custom_fields" = JS.Obj ((name, JS.Null) :: rest) ∧
                includes (toLowerCase name) "sap" = true ∧
                JS.truthy (sap_field (JS.Obj ((name, JS.Null) :: rest))) = false) ∨
  (∃ name label rest,
     JS.prop asset "custom_fields" = JS.Obj ((name, JS.Obj [("field", label)]) :: rest) ∧
     includes (toLowerCase name) "sap" = false ∧
     JS.truthy label = true ∧ JS.is_string label = false ∧
     JS.truthy (sap_field (JS.Obj ((name, JS.Obj [("field", label)]) :: rest))) = false) →
  classify w allAssets = None ∧
  get_assets ADMIN_PASSWORD adminPassword apiToken (Some "true") fuel w c
  = Some (Error 500 "Failed to fetch assets from Snipe-IT" Engine, c, requests).
Proof.
  intros Hpw Htok Hfetch Hi Hbad.
  assert (process_asset w i asset = None) as Hnone.
  { unfold process_asset, member.
    destruct Hbad as [Hn|[(name & rest & Hcf & Hname & Hsf)
                         |(name & label & rest & Hcf & Hname & Hl & Hs & Hsf)]].
    - by rewrite Hn.
    - destruct (JS.nullish asset); [done|]. simpl. rewrite Hcf.
      unfold sapAssetNumber. rewrite Hsf. simpl.
      unfold sap_named. rewrite Hname. done.
    - destruct (JS.nullish asset); [done|]. simpl. rewrite Hcf.
      unfold sapAssetNumber. rewrite Hsf. simpl.
      unfold sap_named. rewrite Hname. simpl. rewrite Hl. simpl.
      by destruct label. }
  assert (classify w allAssets = None) as Hc.
  { unfold classify. by rewrite (process_assets_None w allAssets 0%nat i asset). }
  split; [done|].
  unfold get_assets. rewrite Hpw, Htok. simpl. by rewrite Hfetch, Hc.
Qed.

(** ** The paging loop and the cache, in sequence *)

Lemma fetch_pages_shape_from fuel remote : ∀ allAssets offset r requests,
  fetch_pages fuel remote allAssets offset = Some (r, requests) →
  (1 ≤ length requests ≤ fuel)%nat ∧
  requests = GetHardwarePage limit <$> page_offsets offset (length requests) ∧
  (∀ all, r = Done all →
     all = allAssets ++ concat (page_rows remote <$> page_offsets offset (length requests))) ∧
  (∀ fuel', (fuel ≤ fuel')%nat →
     fetch_pages fuel' remote allAssets offset = Some (r, requests)).
Proof.
  induction fuel as [|fuel IH]; intros allAssets offset r requests H; [done|].
  simpl in H. destruct (remote offset) as [data|st message] eqn:Hr.
  - destruct (_ || _) eqn:Hstop.
    + injection H as <- <-. simpl. split_and!; [lia|lia|done| |].
      * intros all [= <-]. unfold page_rows. rewrite Hr. by rewrite app_nil_r.
      * intros [|fuel'] Hf; [lia|]. simpl. by rewrite Hr, Hstop.
    + destruct (fetch_pages fuel remote _ _) as [[r' sent']|] eqn:Hrec; [|done].
      injection H as <- <-.
      destruct (IH _ _ _ _ Hrec) as ([Hlo Hhi] & Hreq & Hall & Hmono).
      simpl. split_and!; [lia|lia| | |].
      * f_equal. exact Hreq.
      * intros all Hd. rewrite (Hall all Hd). unfold page_rows at 2. rewrite Hr.
        rewrite <-app_assoc. done.
      * intros [|fuel'] Hf; [lia|]. simpl. rewrite Hr, Hstop.
        rewrite (Hmono fuel') by lia. done.
  - injection H as <- <-. simpl. split_and!; [lia|lia|done|done|].
    intros [|fuel'] Hf; [lia|]. simpl. by rewrite Hr.
Qed.

(** X18.  When the paged fetch returns, it has sent at least one page
    request and no more than its fuel; the requests ask for 500 rows at
    the offsets 0, 500, 1000, and so on, in this order; when it returns
    rows, they are the rows of the pages answered at these offsets, one
    page after the other; and any larger fuel gives the same result and
    the same requests. *)
Theorem fetch_pages_shape (fuel : nat) (remote : Z → outcome page)
    (r : outcome (list JS.value)) (requests : list call) :
  fetch_pages fuel remote [] 0 = Some (r, requests) →
  (1 ≤ length requests ≤ fuel)%nat ∧
  requests = GetHardwarePage 500 <$> page_offsets 0 (length requests) ∧
  (∀ k offset, page_offsets 0 (length requests) !! k = Some offset →
               offset = 500 * Z.of_nat k) ∧
  (∀ all, r = Done all →
     all = concat (page_rows remote <$> page_offsets 0 (length requests))) ∧
  (∀ fuel', (fuel ≤ fuel')%nat → fetch_pages fuel' remote [] 0 = Some (r, requests)).
Proof.
  intros H. destruct (fetch_pages_shape_from fuel remote [] 0 r requests H)
    as (Hlen & Hreq & Hall & Hmono).
  split; [done|]. split; [done|]. split; [|by split].
  assert (∀ n offset k o, page_offsets offset n !! k = Some o → o = offset + 500 * Z.of_nat k)
    as Hoff.
  { induction n as [|n IH]; intros offset k o Hk; [done|].
    destruct k as [|k]; simpl in Hk; [injection Hk as <-; lia|].
    apply IH in Hk. unfold limit in Hk. lia. }
  intros k offset Hk. apply Hoff in Hk. lia.
Qed.

(** What a reply from the miss path implies. *)
Lemma get_assets_fresh pw adm tok refresh fuel w c r c' requests :
  get_assets pw adm tok refresh fuel w c = Some (Json r, c', requests) →
  SnapshotReply.cached r = false →
  c' = mk_cache (Some (SnapshotReply.snapshot r)) (Some (date_now w)) ∧
  SnapshotReply.cache_age r = 0 ∧
  ∃ allAssets, fetch_pages fuel (hardware_page w) [] 0 = Some (Done allAssets, requests) ∧
               classify w allAssets = Some (SnapshotReply.snapshot r).
Proof.
  unfold get_assets. destruct (wrong_password _ _); [done|].
  destruct (negb (present tok)); [done|].
  destruct (if bool_decide (refresh = Some "true") then None else cache_fresh c (date_now w))
    as [[snapshot t]|].
  - intros [= <- <- <-]. done.
  - destruct (fetch_pages fuel _ _ _) as [[[allAssets|] sent]|] eqn:Hf; [|done|done].
    destruct (classify w allAssets) as [result|] eqn:Hc; [|done].
    intros [= <- <- <-] _. simpl. eauto.
Qed.

(** X19.  Two requests in a row.  After an authorized request that
    fetched a fresh snapshot at a time other than 0, a second authorized
    request less than 600000 ms later, not asking for a refresh, answers
    with the very same snapshot, marked cached, with the age in seconds,
    sends nothing to Snipe-IT and leaves the slot alone, whatever
    Snipe-IT would have answered.  A request asking for a refresh
    ignores what the slot holds: its reply and its requests are those of
    a request on the empty slot. *)
Theorem cache_second_get (ADMIN_PASSWORD : string) (adminPassword apiToken : header)
    (refresh1 refresh2 : option string) (fuel1 fuel2 : nat) (w1 w2 : snapshot_env)
    (c c1 : assetCache) (r1 : SnapshotReply.t) (requests : list call) :
  get_assets ADMIN_PASSWORD adminPassword apiToken refresh1 fuel1 w1 c
  = Some (Json r1, c1, requests) →
  SnapshotReply.cached r1 = false →
  date_now w1 ≠ 0 →
  date_now w2 - date_now w1 < 600000 →
  refresh2 ≠ Some "true" →
  get_assets ADMIN_PASSWORD adminPassword apiToken refresh2 fuel2 w2 c1
  = Some (Json (SnapshotReply.mk (SnapshotReply.snapshot r1) true
                  (round_seconds (date_now w2 - date_now w1))), c1, []) ∧
  (∀ fuel w, (λ x, (x.1.1, x.2)) <$>
             get_assets ADMIN_PASSWORD adminPassword apiToken (Some "true") fuel w c1
           = (λ x, (x.1.1, x.2)) <$>
             get_assets ADMIN_PASSWORD adminPassword apiToken (Some "true") fuel w
               startup_cache).
Proof.
  intros H1 Hfresh Hnow Hage Hrefresh.
  assert (wrong_password ADMIN_PASSWORD adminPassword = false ∧ present apiToken = true)
    as [Hpw Htok].
  { revert H1. unfold get_assets. destruct (wrong_password _ _); [done|].
    by destruct (present apiToken). }
  apply get_assets_fresh in H1 as (-> & _ & _); [|done].
  split.
  - unfold get_assets. rewrite Hpw, Htok. simpl.
    rewrite bool_decide_eq_false_2 by done.
    assert (cache_fresh (mk_cache (Some (SnapshotReply.snapshot r1)) (Some (date_now w1)))
              (date_now w2) = Some (SnapshotReply.snapshot r1, date_now w1)) as ->; [|done].
    apply cache_fresh_Some. unfold ttl. simpl. split_and!; (done || lia).
  - intros fuel w. unfold get_assets. rewrite Hpw, Htok. simpl.
    destruct (fetch_pages fuel _ _ _) as [[[allAssets|] sent]|]; [|done|done].
    by destruct (classify w allAssets).
Qed.

(** ** Locations and export sheets *)

Lemma top_level_filter rows locations :
  top_level rows = Some locations →
  locations `sublist_of` rows ∧
  (∀ loc, loc ∈ rows → JS.nullish loc = false) ∧
  (∀ loc, loc ∈ locations ↔ loc ∈ rows ∧ JS.truthy (JS.prop loc "parent_id") = false).
Proof.
  revert locations. induction rows as [|x rest IH]; intros locations H; simpl in H.
  - injection H as <-. split_and!; [done| |].
    + intros ? Hin. by apply elem_of_nil in Hin.
    + intros loc. split; [intros Hin|intros [Hin _]]; by apply elem_of_nil in Hin.
  - unfold member in H. destruct (JS.nullish x) eqn:Hx; simpl in H; [done|].
    destruct (top_level rest) as [tl|]; simpl in H; [|done].
    destruct (IH tl eq_refl) as (Hsub & Hnn & Hiff). injection H as <-.
    split_and!.
    + destruct (JS.truthy _); [by apply sublist_cons|by apply sublist_skip].
    + intros loc [->|Hin]%elem_of_cons; auto.
    + intros loc. destruct (JS.truthy (JS.prop x "parent_id")) eqn:Hp.
      * rewrite Hiff, elem_of_cons. split; [intros [? ?]; auto|].
        intros [[->|?] Hf]; [congruence|auto].
      * rewrite !elem_of_cons, Hiff. split.
        -- intros [->|[? ?]]; auto.
        -- intros [[->|?] Hf]; auto.
Qed.

(** X20.  The locations the service lists are the rows Snipe-IT
    answered that have no parent ([parent_id] absent, null or 0), all of
    them and in Snipe-IT's order, after exactly one request; a null row
    among the answer, or an answer without a [rows] array, gives 500
    and no list. *)
Theorem locations_top_level :
  (∀ apiToken w locations requests,
     get_locations apiToken w = (Json locations, requests) →
     requests = [GetLocations] ∧
     ∃ data rows, w = Done data ∧ JS.prop data "rows" = JS.Arr rows ∧
       locations `sublist_of` rows ∧
       ∀ loc, loc ∈ locations ↔ loc ∈ rows ∧ JS.truthy (JS.prop loc "parent_id") = false) ∧
  (∀ apiToken data rows,
     present apiToken = true → JS.prop data "rows" = JS.Arr rows → JS.Null ∈ rows →
     get_locations apiToken (Done data)
     = (Error 500 "Failed to fetch locations" Engine, [GetLocations])) ∧
  (∀ apiToken data,
     present apiToken = true → (∀ rows, JS.prop data "rows" ≠ JS.Arr rows) →
     get_locations apiToken (Done data)
     = (Error 500 "Failed to fetch locations" Engine, [GetLocations])).
Proof.
  split_and!.
  - intros apiToken w locations requests. unfold get_locations.
    destruct (negb (present apiToken)); [done|]. destruct w as [data|]; [|done].
    unfold member. destruct (JS.nullish data); simpl; [done|].
    destruct (JS.prop data "rows") as [| | | | | |rows] eqn:Hrows; simpl; try done.
    destruct (top_level rows) as [locs|] eqn:Htop; [|done].
    intros [= <- <-]. split; [done|]. exists data, rows.
    apply top_level_filter in Htop as (Hsub & _ & Hiff). done.
  - intros apiToken data rows Htok Hrows Hnull. unfold get_locations, member.
    rewrite Htok. simpl. destruct (JS.nullish data); simpl; [done|]. rewrite Hrows.
    destruct (top_level rows) as [locs|] eqn:Htop; [|done].
    apply top_level_filter in Htop as (_ & Hnn & _). by apply Hnn in Hnull.
  - intros apiToken data Htok Hrows. unfold get_locations, member.
    rewrite Htok. simpl. destruct (JS.nullish data); simpl; [done|].
    destruct (JS.prop data "rows") as [| | | | | |rows] eqn:E; try done.
    by destruct (Hrows rows).
Qed.


(** ** Token gate *)

(** X22.  Without a token (header absent or empty), none of the routes
    that talk to Snipe-IT sends a request, writes the table or the
    cache; each answers 401. *)
Theorem token_gate (ADMIN_PASSWORD : string) (apiToken : header) :
  present apiToken = false →
  (∀ w, get_locations apiToken w = (Error 401 "API token required" NoDetails, [])) ∧
  (∀ query w, search_assets apiToken query w = (Error 401 "API token required" NoDetails, [])) ∧
  (∀ id w, get_asset apiToken id w = (Error 401 "API token required" NoDetails, [])) ∧
  (∀ w, get_user apiToken w = (Error 401 "API token required" NoDetails, [])) ∧
  (∀ b w d, submit_audit apiToken b w d
            = mkresult (Error 401 "API token required" NoDetails) d []) ∧
  (∀ adminPassword refresh fuel w c,
     ∃ error, get_assets ADMIN_PASSWORD adminPassword apiToken refresh fuel w c
              = Some (Error 401 error NoDetails, c, [])) ∧
  (∀ adminPassword location_id id w,
     ∃ error, patch_location ADMIN_PASSWORD adminPassword apiToken location_id id w
              = (Error 401 error NoDetails, [])) ∧
  (∀ adminPassword audit_ids resolved_by w d,
     ∃ error, resolve_audits ADMIN_PASSWORD adminPassword apiToken audit_ids resolved_by w d
              = mkresult (Error 401 error NoDetails) d []).
Proof.
  intros Htok. split_and!; intros;
    unfold get_locations, search_assets, get_asset, get_user, submit_audit, get_assets,
      patch_location, resolve_audits;
    rewrite Htok; simpl; try done;
    destruct (wrong_password _ _); eauto.
Qed.

(** * Concrete runs of the further properties *)

Lemma token_gate_witness :
  present None = false ∧
  ∀ b w d, submit_audit None b w d
           = mkresult (Error 401 "API token required" NoDetails) d [].
Proof.
  split; [reflexivity|].
  exact (proj1 (proj2 (proj2 (proj2 (proj2 (token_gate Sample.password None eq_refl)))))).
Defined.

Lemma three_mismatches_wf : db_wf Sample.three_mismatches.
Proof. apply run_wf, empty_db_wf. Qed.

Lemma submit_id_fresh_witness :
  let ops := [Delete Sample.admin (Some 3) false] in
  let r := AuditReply.mk true 4 "mismatch" true in
  db_wf Sample.three_mismatches ∧
  audits (run Sample.password ops Sample.three_mismatches) !! 3 = None ∧
  reply (submit_audit Sample.token (Sample.body (JS.Num 1) (JS.Num 2)) Sample.remote_up
           (run Sample.password ops Sample.three_mismatches)) = Json r ∧
  seq Sample.three_mismatches < AuditReply.id r ∧
  (∀ k, is_Some (audits Sample.three_mismatches !! k) → k < AuditReply.id r) ∧
  audits (run Sample.password ops Sample.three_mismatches) !! AuditReply.id r = None.
Proof.
  intros ops r. split; [exact three_mismatches_wf|].
  split; [vm_compute; reflexivity|]. split; [vm_compute; reflexivity|].
  exact (submit_id_fresh Sample.password Sample.three_mismatches ops Sample.token
           (Sample.body (JS.Num 1) (JS.Num 2)) Sample.remote_up r three_mismatches_wf
           eq_refl).
Defined.


Lemma resolve_after_delete_witness :
  let d1 := store (delete_audit Sample.password Sample.admin (Some 2) false
                     Sample.three_mismatches) in
  let res := resolve_audits Sample.password Sample.admin Sample.token
               (Body.IdsArray [2]) JS.Undefined Sample.patches_pass d1 in
  is_Some (audits Sample.three_mismatches !! 2) ∧
  reply res = Json (ResolveReply.mk false 0 1 [] [(2, "Audit not found")]) ∧
  store res = d1 ∧
  calls res = [].
Proof.
  intros d1 res. split; [vm_compute; eauto|].
  exact (resolve_after_delete Sample.password Sample.admin Sample.token 2 JS.Undefined
           Sample.patches_pass Sample.three_mismatches eq_refl eq_refl eq_refl).
Defined.


Lemma search_found_witness :
  let term := "laptop-001" in
  search_assets Sample.token (Some "  laptop-001 ") Scenario.search_world
  = (Json Scenario.laptop, [GetByTag term; SearchHardware term 50]) ∧
  ∃ q, Some "  laptop-001 " = Some q ∧ trim q ≠ "" ∧
    (([GetByTag term; SearchHardware term 50] = [GetByTag (trim q)] ∧
      by_tag Scenario.search_world = Done Scenario.laptop ∧
      JS.truthy (JS.prop Scenario.laptop "id") = true) ∨
     ([GetByTag term; SearchHardware term 50]
      = [GetByTag (trim q); SearchHardware (trim q) 50] ∧
      ∃ data pre post,
        by_search Scenario.search_world = Done data ∧
        JS.prop data "rows" = JS.Arr (pre ++ Scenario.laptop :: post) ∧
        ((tag_is (trim q) Scenario.laptop = Some true ∧
          (∃ s, JS.prop Scenario.laptop "asset_tag" = JS.Str s ∧
                toLowerCase s = toLowerCase (trim q)) ∧
          ∀ x, x ∈ pre → tag_is (trim q) x = Some false) ∨
         (sap_is (trim q) Scenario.laptop = Some true ∧
          ∀ x, x ∈ pre → sap_is (trim q) x = Some false)))).
Proof.
  intros term. split; [reflexivity|].
  exact (search_found Sample.token (Some "  laptop-001 ") Scenario.search_world
           Scenario.laptop [GetByTag term; SearchHardware term 50] eq_refl).
Defined.

Lemma search_first_hit_witness :
  let q := "  laptop-001 " in
  trim q = "laptop-001" ∧
  sap_is (trim q) Scenario.printer = Some true ∧
  (∀ x, x ∈ [Scenario.printer] → tag_is (trim q) x = Some false) ∧
  tag_is (trim q) Scenario.laptop = Some true ∧
  search_assets Sample.token (Some q) Scenario.search_world
  = (Json Scenario.laptop, [GetByTag (trim q); SearchHardware (trim q) 50]).
Proof.
  intros q.
  assert (∀ x, x ∈ [Scenario.printer] → tag_is (trim q) x = Some false) as Hpre.
  { intros x Hx. apply list_elem_of_singleton in Hx. by subst x. }
  split; [reflexivity|]. split; [reflexivity|]. split; [exact Hpre|].
  split; [reflexivity|].
  exact (proj1 (search_first_hit Sample.token q Scenario.search_world
                  Scenario.found_by_search [Scenario.printer] [] Scenario.laptop
                  eq_refl ltac:(discriminate) ltac:(discriminate) eq_refl eq_refl eq_refl)
           Hpre eq_refl).
Defined.

Lemma overdue_bucket_witness :
  let w := Sample.world 1714000000000 Sample.two_pages in
  let allAssets := [Sample.unaudited; Scenario.due] in
  ∃ snapshot,
  classify w allAssets = Some snapshot ∧
  length (Snapshot.audit_overdue snapshot) = 1%nat ∧
  (∀ i asset, allAssets !! i = Some asset →
     ∃ a, Snapshot.all_assets snapshot !! i = Some a ∧
          Asset.audit_overdue a
          = match parseDate (date_time w) (JS.prop asset "next_audit_date") with
            | Some t => bool_decide (t < date_clock w i)
            | None => false
            end ∧
          (JS.truthy (JS.prop asset "next_audit_date") = false →
           Asset.audit_overdue a = false ∧ a ∉ Snapshot.audit_overdue snapshot)) ∧
  (∀ a, a ∈ Snapshot.audit_overdue snapshot ↔
        a ∈ Snapshot.all_assets snapshot ∧ Asset.audit_overdue a = true).
Proof.
  intros w allAssets.
  destruct (classify w allAssets) as [snapshot|] eqn:E; [|vm_compute in E; discriminate E].
  exists snapshot. split; [reflexivity|].
  split; [vm_compute in E; injection E as <-; reflexivity|].
  exact (overdue_bucket w allAssets snapshot E).
Defined.

Lemma snapshot_buckets_witness :
  let w := Sample.world 1714000000000 Sample.two_pages in
  let allAssets := [Sample.unaudited; Scenario.due; Sample.blank_date] in
  ∃ snapshot,
  classify w allAssets = Some snapshot ∧
  (∀ a, a ∈ Snapshot.all_assets snapshot → Asset.never_audited a = true →
        Asset.not_audited_this_year a = true) ∧
  Snapshot.never_audited snapshot ++ Snapshot.not_audited_this_year snapshot
  ≡ₚ filter (λ a, Asset.not_audited_this_year a = true) (Snapshot.all_assets snapshot) ∧
  Snapshot.never_audited snapshot `sublist_of` Snapshot.all_assets snapshot ∧
  Snapshot.not_audited_this_year snapshot `sublist_of` Snapshot.all_assets snapshot ∧
  Snapshot.audit_overdue snapshot `sublist_of` Snapshot.all_assets snapshot ∧
  Snapshot.total snapshot = length (Snapshot.all_assets snapshot) ∧
  (∀ i asset, allAssets !! i = Some asset →
     ∃ a, Snapshot.all_assets snapshot !! i = Some a ∧
          Asset.id a = JS.prop asset "id" ∧ Asset.asset_tag a = JS.prop asset "asset_tag").
Proof.
  intros w allAssets.
  destruct (classify w allAssets) as [snapshot|] eqn:E; [|vm_compute in E; discriminate E].
  exists snapshot. split; [reflexivity|].
  exact (snapshot_buckets w allAssets snapshot E).
Defined.

Lemma snapshot_fields_normalised_witness :
  let w := Sample.world 1714000000000 Sample.two_pages in
  let allAssets := [Sample.unaudited; Scenario.due] in
  ∃ snapshot,
  classify w allAssets = Some snapshot ∧
  (Asset.model <$> Snapshot.all_assets snapshot) = [JS.Null; JS.Str "ThinkPad"] ∧
  ∀ a, a ∈ Snapshot.all_assets snapshot →
    null_or_truthy (Asset.model a) ∧ null_or_truthy (Asset.category a) ∧
    null_or_truthy (Asset.location a) ∧ null_or_truthy (Asset.location_id a) ∧
    null_or_truthy (Asset.assigned_to a) ∧ null_or_truthy (Asset.status a) ∧
    null_or_truthy (Asset.sap_asset_number a) ∧
    null_or_truthy (Asset.last_audit_date a) ∧ null_or_truthy (Asset.next_audit_date a) ∧
    (Asset.never_audited a = true → Asset.last_audit_date a = JS.Null).
Proof.
  intros w allAssets.
  destruct (classify w allAssets) as [snapshot|] eqn:E; [|vm_compute in E; discriminate E].
  exists snapshot. split; [reflexivity|].
  split; [vm_compute in E; injection E as <-; reflexivity|].
  exact (snapshot_fields_normalised w allAssets snapshot E).
Defined.

Lemma unreadable_asset_fails_snapshot_witness :
  let remote := Scenario.one_page [Sample.unaudited; Scenario.unreadable] in
  let w := Sample.world 6000 remote in
  let c := mk_cache (Some Sample.snapshot0) (Some 1000) in
  fetch_pages 1 remote [] 0
  = Some (Done [Sample.unaudited; Scenario.unreadable], [GetHardwarePage 500 0]) ∧
  classify w [Sample.unaudited; Scenario.unreadable] = None ∧
  get_assets Sample.password Sample.admin Sample.token (Some "true") 1 w c
  = Some (Error 500 "Failed to fetch assets from Snipe-IT" Engine, c, [GetHardwarePage 500 0]).
Proof.
  intros remote w c. split; [reflexivity|].
  refine (unreadable_asset_fails_snapshot Sample.password Sample.admin Sample.token 1 w c
            [Sample.unaudited; Scenario.unreadable] [GetHardwarePage 500 0] 1
            Scenario.unreadable eq_refl eq_refl eq_refl eq_refl _).
  right. left. exists "sap_code", []. split_and!; reflexivity.
Defined.

Lemma fetch_pages_shape_witness :
  ∃ r requests,
  fetch_pages 2 Sample.two_pages [] 0 = Some (r, requests) ∧
  length requests = 2%nat ∧
  (1 ≤ length requests ≤ 2)%nat ∧
  requests = GetHardwarePage 500 <$> page_offsets 0 (length requests) ∧
  (∀ k offset, page_offsets 0 (length requests) !! k = Some offset →
               offset = 500 * Z.of_nat k) ∧
  (∀ all, r = Done all →
     all = concat (page_rows Sample.two_pages <$> page_offsets 0 (length requests))) ∧
  (∀ fuel', (2 ≤ fuel')%nat → fetch_pages fuel' Sample.two_pages [] 0 = Some (r, requests)).
Proof.
  destruct (fetch_pages 2 Sample.two_pages [] 0) as [[r requests]|] eqn:E;
    [|vm_compute in E; discriminate E].
  exists r, requests. split; [reflexivity|].
  split; [vm_compute in E; injection E as _ <-; reflexivity|].
  exact (fetch_pages_shape 2 Sample.two_pages r requests E).
Defined.

Lemma cache_second_get_witness :
  let remote := Scenario.one_page [Sample.unaudited] in
  let w1 := Sample.world 1000 remote in
  let w2 := Sample.world 6000 Sample.endless in
  ∃ r1 c1 requests,
  get_assets Sample.password Sample.admin Sample.token None 1 w1 startup_cache
  = Some (Json r1, c1, requests) ∧
  SnapshotReply.cached r1 = false ∧
  get_assets Sample.password Sample.admin Sample.token None 0 w2 c1
  = Some (Json (SnapshotReply.mk (SnapshotReply.snapshot r1) true 5), c1, []) ∧
  (∀ fuel w, (λ x, (x.1.1, x.2)) <$>
             get_assets Sample.password Sample.admin Sample.token (Some "true") fuel w c1
           = (λ x, (x.1.1, x.2)) <$>
             get_assets Sample.password Sample.admin Sample.token (Some "true") fuel w
               startup_cache).
Proof.
  intros remote w1 w2.
  destruct (get_assets Sample.password Sample.admin Sample.token None 1 w1 startup_cache)
    as [[[[r1|] c1] requests]|] eqn:E; try (vm_compute in E; discriminate E).
  assert (SnapshotReply.cached r1 = false) as Hfresh
    by (vm_compute in E; injection E as <- _ _; reflexivity).
  exists r1, c1, requests. split; [reflexivity|]. split; [exact Hfresh|].
  exact (cache_second_get Sample.password Sample.admin Sample.token None None 1 0 w1 w2
           startup_cache c1 r1 requests E Hfresh ltac:(discriminate) ltac:(reflexivity)
           ltac:(discriminate)).
Defined.

(** * Round trips and dead ends of the table *)






(** What the columns make of a number sent as text and of a text sent
    as a number: the asset id '7' is read back as the number 7, the
    asset tag 123 as the text '123.0'. *)
Example submit_mixed_types :
  let b := Body.mk_audit (JS.Str "7") (JS.Num 123) (JS.Str "Laptop") JS.Undefined
             (JS.Str "2") (JS.Str "Headquarters") (JS.Num 2) (JS.Str "Lab")
             JS.Undefined (JS.Str "ana") in
  let res := submit_audit Sample.token b Sample.remote_up empty_db in
  reply res = Json (AuditReply.mk true 1 "mismatch" true) ∧
  db_get 1 (store res)
  = Some (Row.mk 1 (JS.Num 7) (JS.Str "123.0") (JS.Str "Laptop") JS.Null
                 (JS.Num 2) (JS.Str "Headquarters") (JS.Num 2) (JS.Str "Lab")
                 "mismatch" JS.Null (JS.Str "ana") 1 "2024-05-01 10:00:00"
                 JS.Null JS.Null).
Proof. vm_compute. split; reflexivity. Qed.

Lemma resolve_loop_errors by_ w ids (text : string) : ∀ i p,
  db_clean (table p) →
  (∀ j, select_fault (w j) ≠ Some text ∧ update_fault (w j) ≠ Some text ∧
        ∀ st, patch (w j) ≠ Thrown st text) →
  text ≠ "Audit not found" → text ≠ "Audit is not a mismatch" →
  (∀ a, (a, text) ∉ errors p) →
  ∀ a, (a, text) ∉ errors (resolve_loop by_ w i ids p).
Proof.
  induction ids as [|a0 ids IH]; intros i p Hclean Hw H1 H2 Hp; simpl; [done|].
  apply IH; try done.
  - destruct (resolve_one_table by_ (w i) a0 p) as [->|(r & E & Hm & _ & _ & _ & _ & ->)];
      [done|].
    intros k r'. simpl. rewrite lookup_alter. case_decide; [|apply Hclean].
    destruct (audits (table p) !! a0); simpl; [|done]. by intros [= <-].
  - intros a. destruct (Hw i) as (Hs & Hu & Hpt).
    unfold resolve_one, db_get.
    destruct (select_fault (w i)) as [m|] eqn:Es.
    { simpl. intros [Hin|Hin%list_elem_of_singleton]%elem_of_app; [by eapply Hp|].
      injection Hin as _ ->. done. }
    destruct (audits (table p) !! a0) as [r|] eqn:Er.
    2:{ simpl. intros [Hin|Hin%list_elem_of_singleton]%elem_of_app; [by eapply Hp|].
        injection Hin as _ ->. done. }
    destruct (String.eqb (Row.status r) "mismatch") eqn:Em; simpl.
    2:{ intros [Hin|Hin%list_elem_of_singleton]%elem_of_app; [by eapply Hp|].
        injection Hin as _ ->. done. }
    apply String.eqb_eq in Em. rewrite (Hclean _ _ Er Em). simpl.
    destruct (patch (w i)) as [u|st m] eqn:Ep.
    + destruct (update_fault (w i)) as [m|] eqn:Eu; simpl; [|apply Hp].
      intros [Hin|Hin%list_elem_of_singleton]%elem_of_app; [by eapply Hp|].
      injection Hin as _ ->. done.
    + simpl. intros [Hin|Hin%list_elem_of_singleton]%elem_of_app; [by eapply Hp|].
      injection Hin as _ ->. by destruct (Hpt st).
Qed.

(** X24.  The guard that files 'Already resolved' never fires.  On a
    table the service has written, whatever the history and the batch,
    no per-id error of a resolve carries that message, unless Snipe-IT
    or the driver themselves fail with it; and no unresolved mismatch
    carries a resolution stamp. *)
Theorem already_resolved_unreachable (ADMIN_PASSWORD : string) (ops : list op)
    (adminPassword apiToken : header) (audit_ids : Body.audit_ids)
    (resolved_by : JS.value) (w : nat → step_env) (r : ResolveReply.t) :
  (∀ j, select_fault (w j) ≠ Some "Already resolved" ∧
        update_fault (w j) ≠ Some "Already resolved" ∧
        ∀ st, patch (w j) ≠ Thrown st "Already resolved") →
  reply (resolve_audits ADMIN_PASSWORD adminPassword apiToken audit_ids resolved_by w
           (run ADMIN_PASSWORD ops empty_db)) = Json r →
  (∀ a, (a, "Already resolved") ∉ ResolveReply.errors r) ∧
  db_clean (run ADMIN_PASSWORD ops empty_db).
Proof.
  intros Hw Hr.
  assert (db_clean (run ADMIN_PASSWORD ops empty_db)) as Hclean
    by apply run_clean, empty_db_clean.
  split; [|done]. revert Hr. unfold resolve_audits.
  destruct (wrong_password _ _); [done|]. destruct (negb (present apiToken)); [done|].
  destruct audit_ids as [| |[|a ids]]; try done.
  intros [= <-]. simpl.
  apply (resolve_loop_errors resolved_by w (a :: ids) "Already resolved" 0%nat
           (start (run ADMIN_PASSWORD ops empty_db))); try done.
  intros ? Hin. by apply elem_of_nil in Hin.
Qed.

Lemma already_resolved_unreachable_witness :
  let ops := [Submit Sample.token (Sample.body (JS.Num 1) (JS.Num 2)) Sample.remote_up;
              Resolve Sample.admin Sample.token (Body.IdsArray [1]) (JS.Str "root")
                Sample.patches_pass] in
  let r := ResolveReply.mk false 0 1 [] [(1, "Audit is not a mismatch")] in
  reply (resolve_audits Sample.password Sample.admin Sample.token (Body.IdsArray [1])
           (JS.Str "eve") Sample.patches_pass (run Sample.password ops empty_db)) = Json r ∧
  (∀ a, (a, "Already resolved") ∉ ResolveReply.errors r) ∧
  db_clean (run Sample.password ops empty_db).
Proof.
  intros ops r. split; [vm_compute; reflexivity|].
  refine (already_resolved_unreachable Sample.password ops Sample.admin Sample.token
            (Body.IdsArray [1]) (JS.Str "eve") Sample.patches_pass r _ _).
  - intros j. split_and!; [discriminate|discriminate|intros st; discriminate].
  - vm_compute. reflexivity.
Defined.
